(** * nanogui/common.h: shared definitions of the NanoGUI widget toolkit

    A shallow embedding of the executable content of [common.h]: the icon
    predicates, the UTF-8 encoder [utf8], the modifier codes and the
    [Color] value type, followed by the properties established for them.

    Conventions of the embedding:
    - a C++ [int] is a [Z] in the range [INT_MIN .. INT_MAX]; the
      operators used by the header on [int] ([<], [>=], [&], [|], [>>])
      cannot overflow, so no wrap-around is written for them;
    - a [char] is its 8-bit pattern, a [Z] in [0 .. 255]; storing an [int]
      into a [char] keeps the low eight bits ([to_char]);
    - a [float] is an IEEE-754 binary32 value, given by the Standard
      Library's [spec_float] at precision 24 and maximal exponent 128. *)

From Stdlib Require Import ZArith QArith Lia Bool List.
From Stdlib Require Floats.SpecFloat.
From Stdlib Require String Ascii.
From stdpp Require Import base option list.

Local Open Scope Z_scope.

(** ** Machine integers and characters *)

Definition INT_MIN : Z := - 2 ^ 31.
Definition INT_MAX : Z := 2 ^ 31 - 1.

(** The values an [int] can take. *)
Definition is_int (c : Z) : Prop := INT_MIN <= c <= INT_MAX.

(** Conversion of an [int] to [char]: the low eight bits. *)
Definition to_char (v : Z) : Z := v mod 256.

(** ** Icon identifiers *)

(** [nvgIsImageIcon]: [return value < 1024;] *)
Definition nvgIsImageIcon (value : Z) : bool := value <? 1024.

(** [nvgIsFontIcon]: [return value >= 1024;] *)
Definition nvgIsFontIcon (value : Z) : bool := value >=? 1024.

(** ** The UTF-8 encoder *)

Module Utf8.

(** [std::array<char, 8>]: eight characters.  The array [seq] of [utf8] is
    declared without an initialiser, so its contents before the first
    write are whatever the storage held; the embedding takes that initial
    content as the argument [seq0]. *)
Abbreviation char_array := (list Z).

Definition ARRAY_SIZE : nat := 8.

(** A value of the array type: exactly [ARRAY_SIZE] characters. *)
Definition is_array (s : char_array) : Prop := length s = ARRAY_SIZE.

(** [seq[i] = v]: a write at index [i]; outside the array the write has
    no defined behaviour, which the embedding reports as [None]. *)
Definition store (i : Z) (v : Z) (seq : char_array) : option char_array :=
  if decide (0 <= i < Z.of_nat (length seq))
  then Some (<[Z.to_nat i := to_char v]> seq)
  else None.

(** The chain of comparisons that assigns [n]; [n] starts at [0]. *)
Definition utf8_length (c : Z) : Z :=
  if c <? 0x80 then 1
  else if c <? 0x800 then 2
  else if c <? 0x10000 then 3
  else if c <? 0x200000 then 4
  else if c <? 0x4000000 then 5
  else if c <=? 0x7fffffff then 6
  else 0.

(** The variables the [switch] works on. *)
Record locals : Type := Locals { seq : char_array; c : Z }.

(** The value stored by the cases 6 to 2, [0x80 | (c & 0x3f)]. *)
Definition low_six (v : Z) : Z := Z.lor 0x80 (Z.land v 0x3f).

(** The update of [c] in the cases 6 to 2, [c = c >> 6; c |= mark;]. *)
Definition shift_mark (v mark : Z) : Z :=
  let v1 := Z.shiftr v 6 in
  Z.lor v1 mark.

(** The three statements shared by the cases 6 to 2:
    [seq[i] = 0x80 | (c & 0x3f); c = c >> 6; c |= mark;] *)
Definition emit (i : Z) (mark : Z) (st : locals) : option locals :=
  seq' ← store i (low_six (c st)) (seq st);
  Some (Locals seq' (shift_mark (c st) mark)).

(** The cases of the [switch]; none ends in [break], so each one runs
    into the next. *)
Definition case_1 (st : locals) : option locals :=
  seq' ← store 0 (c st) (seq st);
  Some (Locals seq' (c st)).

Definition case_2 (st : locals) : option locals :=
  emit 1 0xc0 st ≫= case_1.

Definition case_3 (st : locals) : option locals :=
  emit 2 0x800 st ≫= case_2.

Definition case_4 (st : locals) : option locals :=
  emit 3 0x10000 st ≫= case_3.

Definition case_5 (st : locals) : option locals :=
  emit 4 0x200000 st ≫= case_4.

Definition case_6 (st : locals) : option locals :=
  emit 5 0x4000000 st ≫= case_5.

(** [switch (n)]: with no [default], any other [n] skips the body. *)
Definition switch (n : Z) (st : locals) : option locals :=
  match n with
  | 6 => case_6 st
  | 5 => case_5 st
  | 4 => case_4 st
  | 3 => case_3 st
  | 2 => case_2 st
  | 1 => case_1 st
  | _ => Some st
  end.

(** [utf8 (int c)], started on the uninitialised array [seq0]. *)
Definition utf8 (seq0 : char_array) (c0 : Z) : option char_array :=
  let n := utf8_length c0 in
  seq1 ← store n 0 seq0;
  st ← switch n (Locals seq1 c0);
  Some (seq st).

(** *** The encoding the specification refers to

    The standard UTF-8 table, written from the specification's words and
    not from the code: the number of bytes [n] by the size of the code
    point, a lead byte whose prefix announces [n], and continuation bytes
    [10xxxxxx], the payload spread over them six bits at a time. *)
Definition standard_length (c : Z) : nat :=
  if c <? 0x80 then 1 else if c <? 0x800 then 2 else if c <? 0x10000 then 3 else 4.

Definition utf8_standard (c : Z) : list Z :=
  match standard_length c with
  | 1%nat => [c]
  | 2%nat => [0xC0 + c / 2 ^ 6; 0x80 + c mod 2 ^ 6]
  | 3%nat => [0xE0 + c / 2 ^ 12; 0x80 + (c / 2 ^ 6) mod 2 ^ 6; 0x80 + c mod 2 ^ 6]
  | _ => [0xF0 + c / 2 ^ 18; 0x80 + (c / 2 ^ 12) mod 2 ^ 6;
          0x80 + (c / 2 ^ 6) mod 2 ^ 6; 0x80 + c mod 2 ^ 6]
  end.

(** [0xxxxxxx], [110xxxxx], [1110xxxx], [11110xxx] for a sequence of
    [n] = 1, 2, 3, 4 bytes. *)
Definition lead_prefix (n : nat) (b : Z) : bool :=
  match n with
  | 1%nat => (0x00 <=? b) && (b <=? 0x7F)
  | 2%nat => (0xC0 <=? b) && (b <=? 0xDF)
  | 3%nat => (0xE0 <=? b) && (b <=? 0xEF)
  | 4%nat => (0xF0 <=? b) && (b <=? 0xF7)
  | _ => false
  end.

(** [10xxxxxx]. *)
Definition is_continuation (b : Z) : bool := (0x80 <=? b) && (b <=? 0xBF).

Definition well_prefixed (bytes : list Z) : bool :=
  match bytes with
  | [] => false
  | b :: rest => lead_prefix (length bytes) b && forallb is_continuation rest
  end.

(** Reading a sequence back: the payload bits of the lead byte followed
    by those of the continuation bytes. *)
Definition utf8_decode (bytes : list Z) : option Z :=
  match bytes with
  | [b0] => Some b0
  | [b0; b1] => Some ((b0 - 0xC0) * 2 ^ 6 + (b1 - 0x80))
  | [b0; b1; b2] => Some ((b0 - 0xE0) * 2 ^ 12 + (b1 - 0x80) * 2 ^ 6 + (b2 - 0x80))
  | [b0; b1; b2; b3] =>
      Some ((b0 - 0xF0) * 2 ^ 18 + (b1 - 0x80) * 2 ^ 12 + (b2 - 0x80) * 2 ^ 6 + (b3 - 0x80))
  | _ => None
  end.

End Utf8.

(** ** Modifier codes *)

(** The first anonymous [enum] of the header ("Cinder key codes"). *)
Definition SHIFT_DOWN : Z := 0x0008.
Definition ALT_DOWN : Z := 0x0010.
Definition CTRL_DOWN : Z := 0x0020.
Definition META_DOWN : Z := 0x0040.

(** [ACCEL_DOWN] is [CTRL_DOWN] when [CINDER_MSW] or [CINDER_WINRT] is
    defined and [META_DOWN] otherwise; [msw] tells which. *)
Definition ACCEL_DOWN (msw : bool) : Z := if msw then CTRL_DOWN else META_DOWN.

(** The four modifiers, as an enumeration, and the code of each. *)
Inductive modifier : Type := Shift | Alt | Ctrl | Meta.

Definition code (m : modifier) : Z :=
  match m with
  | Shift => SHIFT_DOWN
  | Alt => ALT_DOWN
  | Ctrl => CTRL_DOWN
  | Meta => META_DOWN
  end.

#[global] Instance modifier_eq_dec : EqDecision modifier.
Proof. solve_decision. Defined.

(** The word that encodes a set of modifiers: the bitwise OR of their
    codes. *)
Definition mask_of (s : list modifier) : Z :=
  foldr (fun m acc => Z.lor (code m) acc) 0 s.

(** The bitwise AND test of a modifier on a word, [(mods & code) != 0]. *)
Definition is_down (mods : Z) (m : modifier) : bool :=
  negb (Z.land mods (code m) =? 0).

(** ** Single-precision floating point *)

Module F32.

Definition prec : Z := 24.
Definition emax : Z := 128.

Definition float : Type := SpecFloat.spec_float.

(** A value of the format: a canonical mantissa and an exponent in range. *)
Definition valid (x : float) : bool := SpecFloat.valid_binary prec emax x.

Definition is_finite (x : float) : bool :=
  match x with
  | SpecFloat.S754_zero _ | SpecFloat.S754_finite _ _ _ => true
  | _ => false
  end.

(** [static_cast<float>(int)]: the nearest binary32 value, ties to even. *)
Definition of_int (z : Z) : float :=
  SpecFloat.binary_normalize prec emax z 0 false.

Definition add : float -> float -> float := SpecFloat.SFadd prec emax.
Definition mul : float -> float -> float := SpecFloat.SFmul prec emax.
Definition div : float -> float -> float := SpecFloat.SFdiv prec emax.
Definition ltb : float -> float -> bool := SpecFloat.SFltb.

(** Two values that no comparison tells apart: the same value, or two
    zeros of either sign. *)
Definition zero_like (u v : float) : Prop :=
  u = v \/ exists s s', u = SpecFloat.S754_zero s /\ v = SpecFloat.S754_zero s'.

(** The literals of the header, as the binary32 value nearest to the
    decimal that is written. *)
Definition lit_0 : float := SpecFloat.S754_zero false.
Definition lit_1 : float := SpecFloat.S754_finite false 8388608 (-23).
Definition lit_0_5 : float := SpecFloat.S754_finite false 8388608 (-24).
Definition lit_255 : float := SpecFloat.S754_finite false 16711680 (-16).
Definition lit_0_299 : float := SpecFloat.S754_finite false 10032775 (-25).
Definition lit_0_587 : float := SpecFloat.S754_finite false 9848226 (-24).
Definition lit_0_144 : float := SpecFloat.S754_finite false 9663676 (-26).

(** [0.114f] does not occur in the header; it is the blue weight of the
    luminance formula as the specification words it. *)
Definition lit_0_114 : float := SpecFloat.S754_finite false 15300821 (-27).

End F32.

(** ** Eigen vectors *)

Module Eigen.

(** Modelled from the spec: the Eigen library ([../eigen/Eigen/Core]) is
    not part of the source file.  [Vector4f] is "the underlying
    four-component float vector"; [Vector3f], [Vector3i] and [Vector4i]
    are its three-component and integer siblings.  A vector is its
    coefficients in index order. *)
Record Vector4f : Type := mk4f { f0 : F32.float; f1 : F32.float; f2 : F32.float; f3 : F32.float }.
Record Vector3f : Type := mk3f { t0 : F32.float; t1 : F32.float; t2 : F32.float }.
Record Vector4i : Type := mk4i { i0 : Z; i1 : Z; i2 : Z; i3 : Z }.
Record Vector3i : Type := mk3i { j0 : Z; j1 : Z; j2 : Z }.

(** Modelled from the spec: [v(k)], the coefficient of index [k]; an index
    past the last coefficient has no defined value. *)
Definition coeff4 (v : Vector4f) (k : nat) : option F32.float :=
  match k with
  | 0%nat => Some (f0 v)
  | 1%nat => Some (f1 v)
  | 2%nat => Some (f2 v)
  | 3%nat => Some (f3 v)
  | _ => None
  end.

(** Modelled from the spec: the named coefficients [x()], [y()], [z()],
    [w()] of a four-component vector are those of index 0, 1, 2, 3. *)
Definition x (v : Vector4f) : F32.float := f0 v.
Definition y (v : Vector4f) : F32.float := f1 v.
Definition z (v : Vector4f) : F32.float := f2 v.
Definition w (v : Vector4f) : F32.float := f3 v.

(** Modelled from the spec: [Vector3f::Constant] and [Vector3i::Constant]
    fill every coefficient with one value. *)
Definition Constant3f (v : F32.float) : Vector3f := mk3f v v v.
Definition Constant3i (v : Z) : Vector3i := mk3i v v v.

(** Modelled from the spec: [cast<float>()] converts each coefficient. *)
Definition cast3 (v : Vector3i) : Vector3f :=
  mk3f (F32.of_int (j0 v)) (F32.of_int (j1 v)) (F32.of_int (j2 v)).
Definition cast4 (v : Vector4i) : Vector4f :=
  mk4f (F32.of_int (i0 v)) (F32.of_int (i1 v)) (F32.of_int (i2 v)) (F32.of_int (i3 v)).

(** Modelled from the spec: [v / s] divides each coefficient by the
    scalar. *)
Definition div3 (v : Vector3f) (s : F32.float) : Vector3f :=
  mk3f (F32.div (t0 v) s) (F32.div (t1 v) s) (F32.div (t2 v) s).
Definition div4 (v : Vector4f) (s : F32.float) : Vector4f :=
  mk4f (F32.div (f0 v) s) (F32.div (f1 v) s) (F32.div (f2 v) s) (F32.div (f3 v) s).

(** Modelled from the spec: [cwiseProduct] multiplies coefficient by
    coefficient. *)
Definition cwiseProduct (u v : Vector4f) : Vector4f :=
  mk4f (F32.mul (f0 u) (f0 v)) (F32.mul (f1 u) (f1 v))
       (F32.mul (f2 u) (f2 v)) (F32.mul (f3 u) (f3 v)).

(** Modelled from the spec: [sum()] adds the four coefficients.  Floating
    addition is not associative and Eigen chooses the association by its
    build: halves of the vector when unrolled, strided lanes when
    vectorised, left to right in a plain loop. *)
Inductive reduction : Type := Halves | Lanes | Linear.

Definition sum (o : reduction) (v : Vector4f) : F32.float :=
  match o with
  | Halves => F32.add (F32.add (f0 v) (f1 v)) (F32.add (f2 v) (f3 v))
  | Lanes => F32.add (F32.add (f0 v) (f2 v)) (F32.add (f1 v) (f3 v))
  | Linear => F32.add (F32.add (F32.add (f0 v) (f1 v)) (f2 v)) (f3 v)
  end.

(** Modelled from the spec: [VectorXf] (imported at line 59), the column
    vector whose number of coefficients is known only at run time.  Of
    the expressions a [MatrixBase<Derived>] parameter ranges over, the
    embedding takes these; a [Vector4f] is the one of four coefficients. *)
Abbreviation VectorXf := (list F32.float).

(** Modelled from the spec: [Vector4f (p)] and [Vector4f::operator= (p)]
    on a dynamic-size [p].  Eigen copies the coefficients when [p] has the
    four a [Vector4f] holds; for any other size its size assertion fails
    and no value is defined. *)
Definition fixed4 (p : VectorXf) : option Vector4f :=
  match p with
  | [a; b; c; d] => Some (mk4f a b c d)
  | _ => None
  end.

End Eigen.

(** ** The colour type *)

Module Color.

Import Eigen.

(** [class Color : public Eigen::Vector4f], with no member of its own. *)
Definition t : Type := Vector4f.

(** [Color (const Eigen::Vector4f & color) : Eigen::Vector4f (color)] *)
Definition from_Vector4f (color : Vector4f) : t := color.

(** [Color (float r, float g, float b, float a) : Color (Vector4f (r, g, b, a))] *)
Definition from_floats (r g b a : F32.float) : t :=
  from_Vector4f (mk4f r g b a).

(** [Color (const Eigen::Vector3f & color, float alpha)
       : Color (color (0), color (1), color (2), alpha)] *)
Definition from_Vector3f_float (color : Vector3f) (alpha : F32.float) : t :=
  from_floats (t0 color) (t1 color) (t2 color) alpha.

(** [Color (const Eigen::Vector3i & color, int alpha)
       : Color (color.cast<float>() / 255.f, alpha / 255.f)] *)
Definition from_Vector3i_int (color : Vector3i) (alpha : Z) : t :=
  from_Vector3f_float (div3 (cast3 color) F32.lit_255)
                      (F32.div (F32.of_int alpha) F32.lit_255).

(** [Color (const Eigen::Vector3f & color) : Color (color, 1.0f)] *)
Definition from_Vector3f (color : Vector3f) : t :=
  from_Vector3f_float color F32.lit_1.

(** [Color (const Eigen::Vector3i & color)
       : Color ((Vector3f) (color.cast<float>() / 255.f))] *)
Definition from_Vector3i (color : Vector3i) : t :=
  from_Vector3f (div3 (cast3 color) F32.lit_255).

(** [Color (const Eigen::Vector4i & color)
       : Color ((Vector4f) (color.cast<float>() / 255.f))] *)
Definition from_Vector4i (color : Vector4i) : t :=
  from_Vector4f (div4 (cast4 color) F32.lit_255).

(** [Color (float intensity, float alpha)
       : Color (Vector3f::Constant (intensity), alpha)] *)
Definition from_float_float (intensity alpha : F32.float) : t :=
  from_Vector3f_float (Constant3f intensity) alpha.

(** [Color (int intensity, int alpha)
       : Color (Vector3i::Constant (intensity), alpha)] *)
Definition from_int_int (intensity alpha : Z) : t :=
  from_Vector3i_int (Constant3i intensity) alpha.

(** [Color (int r, int g, int b, int a) : Color (Vector4i (r, g, b, a))] *)
Definition from_ints (r g b a : Z) : t :=
  from_Vector4i (mk4i r g b a).

(** [Color() : Color (0, 0, 0, 0)]: the arguments are [int] literals, so
    the delegation goes to the [int] constructor. *)
Definition default : t := from_ints 0 0 0 0.

(** [const float & r() const { return x(); }], and likewise [g], [b]. *)
Definition r (self : t) : F32.float := x self.
Definition g (self : t) : F32.float := y self.
Definition b (self : t) : F32.float := z self.

(** A call of a [const] accessor as a step on the object: the value
    returned and the object afterwards. *)
Definition call_const (get : t -> F32.float) (self : t) : F32.float * t :=
  (get self, self).

(** [float & r() { return x(); }]: the non-const accessors return a
    reference, through which the caller may read the channel or assign
    it. *)
Record ref : Type := Ref { load : F32.float; assign : F32.float -> t }.

Definition r_ref (self : t) : ref :=
  Ref (x self) (fun v => mk4f v (f1 self) (f2 self) (f3 self)).
Definition g_ref (self : t) : ref :=
  Ref (y self) (fun v => mk4f (f0 self) v (f2 self) (f3 self)).
Definition b_ref (self : t) : ref :=
  Ref (z self) (fun v => mk4f (f0 self) (f1 self) v (f3 self)).

(** [contrastingColor]:
    [float luminance = cwiseProduct (Color (0.299f, 0.587f, 0.144f, 0.f)).sum();
     return Color (luminance < 0.5f ? 1.f : 0.f, 1.f);] *)
Definition luminance (o : reduction) (self : t) : F32.float :=
  sum o (cwiseProduct self
           (from_floats F32.lit_0_299 F32.lit_0_587 F32.lit_0_144 F32.lit_0)).

Definition contrastingColor (o : reduction) (self : t) : t :=
  from_float_float
    (if F32.ltb (luminance o self) F32.lit_0_5 then F32.lit_1 else F32.lit_0)
    F32.lit_1.

(** The two colours named by the specification. *)
Definition white : t := mk4f F32.lit_1 F32.lit_1 F32.lit_1 F32.lit_1.
Definition black : t := mk4f F32.lit_0 F32.lit_0 F32.lit_0 F32.lit_1.

(** *** The contrast rule the specification refers to

    Written from the specification's words and not from the code:
    luminance [0.299*r + 0.587*g + 0.114*b], white below [0.5], black
    otherwise. *)
Definition luminance_stated (self : t) : F32.float :=
  F32.add (F32.add (F32.mul F32.lit_0_299 (f0 self))
                   (F32.mul F32.lit_0_587 (f1 self)))
          (F32.mul F32.lit_0_114 (f2 self)).

(** The same luminance on exact rationals. *)
Definition luminance_exact (r g b : Q) : Q :=
  ((299 # 1000) * r + (587 # 1000) * g + (114 # 1000) * b)%Q.

Definition contrastingColor_stated (self : t) : t :=
  if F32.ltb (luminance_stated self) F32.lit_0_5 then white else black.

(** [template <typename Derived> Color (const Eigen::MatrixBase<Derived> & p)
       : Base (p)] *)
Definition from_MatrixBase (p : VectorXf) : option t := fixed4 p.

(** [template <typename Derived> Color & operator= (const Eigen::MatrixBase<Derived> & p)
     { this->Base::operator= (p); return *this; }]: the object after the
    assignment, to which the reference returned refers. *)
Definition assign_MatrixBase (self : t) (p : VectorXf) : option t :=
  self' ← fixed4 p;
  Some self'.

(** Modelled from the spec: [struct NVGcolor] is only declared in the
    header (line 32); it holds four floats, red, green, blue and alpha. *)
Record NVGcolor : Type :=
  mkNVGcolor { nvg_r : F32.float; nvg_g : F32.float; nvg_b : F32.float; nvg_a : F32.float }.

(** [operator const NVGcolor & () const
     { return reinterpret_cast<const NVGcolor &> ( *this ); }]: the four
    floats of the colour, read in place. *)
Definition to_NVGcolor (self : t) : NVGcolor :=
  mkNVGcolor (f0 self) (f1 self) (f2 self) (f3 self).

End Color.

(** ** Reading UTF-8 back *)

Module Utf8Ext.

(** The table of the original definition of UTF-8, with sequences of up
    to six bytes for values up to [0x7FFFFFFF]; written from that
    definition and not from the code. *)
Definition extended_length (c : Z) : nat :=
  if c <? 0x80 then 1
  else if c <? 0x800 then 2
  else if c <? 0x10000 then 3
  else if c <? 0x200000 then 4
  else if c <? 0x4000000 then 5
  else 6.

Definition utf8_extended (c : Z) : list Z :=
  match extended_length c with
  | 1%nat => [c]
  | 2%nat => [0xC0 + c / 2 ^ 6; 0x80 + c mod 2 ^ 6]
  | 3%nat => [0xE0 + c / 2 ^ 12; 0x80 + (c / 2 ^ 6) mod 2 ^ 6; 0x80 + c mod 2 ^ 6]
  | 4%nat => [0xF0 + c / 2 ^ 18; 0x80 + (c / 2 ^ 12) mod 2 ^ 6;
              0x80 + (c / 2 ^ 6) mod 2 ^ 6; 0x80 + c mod 2 ^ 6]
  | 5%nat => [0xF8 + c / 2 ^ 24; 0x80 + (c / 2 ^ 18) mod 2 ^ 6;
              0x80 + (c / 2 ^ 12) mod 2 ^ 6; 0x80 + (c / 2 ^ 6) mod 2 ^ 6;
              0x80 + c mod 2 ^ 6]
  | _ => [0xFC + c / 2 ^ 30; 0x80 + (c / 2 ^ 24) mod 2 ^ 6;
          0x80 + (c / 2 ^ 18) mod 2 ^ 6; 0x80 + (c / 2 ^ 12) mod 2 ^ 6;
          0x80 + (c / 2 ^ 6) mod 2 ^ 6; 0x80 + c mod 2 ^ 6]
  end.

(** A decoder.  The lead byte tells how many continuation bytes follow
    and carries the high bits of the value. *)
Definition lead_info (b : Z) : option (nat * Z) :=
  if b <? 0x00 then None
  else if b <? 0x80 then Some (0%nat, b)
  else if b <? 0xC0 then None
  else if b <? 0xE0 then Some (1%nat, b - 0xC0)
  else if b <? 0xF0 then Some (2%nat, b - 0xE0)
  else if b <? 0xF8 then Some (3%nat, b - 0xF0)
  else if b <? 0xFC then Some (4%nat, b - 0xF8)
  else if b <? 0xFE then Some (5%nat, b - 0xFC)
  else None.

(** Each continuation byte must be [10xxxxxx] and adds six bits. *)
Fixpoint read_continuation (k : nat) (acc : Z) (bytes : list Z) : option Z :=
  match k with
  | O => Some acc
  | S k' =>
      match bytes with
      | b :: rest =>
          if Utf8.is_continuation b
          then read_continuation k' (acc * 2 ^ 6 + (b - 0x80)) rest
          else None
      | [] => None
      end
  end.

(** The value of the sequence at the head of [bytes]. *)
Definition utf8_read (bytes : list Z) : option Z :=
  match bytes with
  | [] => None
  | b :: rest =>
      match lead_info b with
      | Some (k, high) => read_continuation k high rest
      | None => None
      end
  end.

(** The C string held by an array: the bytes before the first NUL. *)
Fixpoint c_str (bytes : list Z) : list Z :=
  match bytes with
  | [] => []
  | b :: rest => if b =? 0 then [] else b :: c_str rest
  end.

(** The order of [strcmp]: byte by byte, a proper prefix first. *)
Fixpoint lex_ltb (u v : list Z) : bool :=
  match u, v with
  | [], [] => false
  | [], _ :: _ => true
  | _ :: _, [] => false
  | a :: u', b :: v' => (a <? b) || ((a =? b) && lex_ltb u' v')
  end.

End Utf8Ext.

(** ** Further predicates on floating-point values *)

Module F32Ext.

Definition leb : F32.float -> F32.float -> bool := SpecFloat.SFleb.

Definition is_nan (x : F32.float) : bool :=
  match x with
  | SpecFloat.S754_nan => true
  | _ => false
  end.

Definition is_infinite (x : F32.float) : bool :=
  match x with
  | SpecFloat.S754_infinity _ => true
  | _ => false
  end.

(** [0 <= x <= 1], the range of a colour channel. *)
Definition in_unit_interval (x : F32.float) : bool :=
  leb F32.lit_0 x && leb x F32.lit_1.

(** The channel of an integer [v], as every integer constructor computes
    it: [static_cast<float>(v) / 255.f]. *)
Definition channel (v : Z) : F32.float := F32.div (F32.of_int v) F32.lit_255.

(** The four channels of a colour: red, green, blue, alpha. *)
Definition channels (col : Color.t) : list F32.float :=
  [Eigen.f0 col; Eigen.f1 col; Eigen.f2 col; Eigen.f3 col].

(** The integers [lo, lo + 1, ..., lo + n - 1]. *)
Definition range (lo : Z) (n : nat) : list Z :=
  map (fun k => lo + Z.of_nat k) (List.seq 0 n).

End F32Ext.

(** ** Key codes *)

Module Keys.

Import String.StringSyntax.
Local Open Scope string_scope.

(** An enumerator of an [enum]: its name, and its initialiser when it is
    written with one. *)
Definition enumerator : Type := String.string * option Z.

(** The value of each enumerator: its initialiser, or one more than the
    enumerator before it ([next]), zero for the first. *)
Fixpoint enum_values (next : Z) (es : list enumerator) : list (String.string * Z) :=
  match es with
  | [] => []
  | (name, init) :: rest =>
      let v := match init with Some v => v | None => next end in
      (name, v) :: enum_values (v + 1) rest
  end.

(** The second anonymous [enum] of the header ("Key codes"). *)
Definition key_enum : list enumerator :=
  [("KEY_UNKNOWN", Some 0); ("KEY_FIRST", Some 0); ("KEY_BACKSPACE", Some 8);
   ("KEY_TAB", Some 9); ("KEY_CLEAR", Some 12); ("KEY_RETURN", Some 13);
   ("KEY_PAUSE", Some 19); ("KEY_ESCAPE", Some 27); ("KEY_SPACE", Some 32);
   ("KEY_EXCLAIM", Some 33); ("KEY_QUOTEDBL", Some 34);
   ("KEY_HASH", Some 35); ("KEY_DOLLAR", Some 36);
   ("KEY_AMPERSAND", Some 38); ("KEY_QUOTE", Some 39);
   ("KEY_LEFTPAREN", Some 40); ("KEY_RIGHTPAREN", Some 41);
   ("KEY_ASTERISK", Some 42); ("KEY_PLUS", Some 43); ("KEY_COMMA", Some 44);
   ("KEY_MINUS", Some 45); ("KEY_PERIOD", Some 46); ("KEY_SLASH", Some 47);
   ("KEY_0", Some 48); ("KEY_1", Some 49); ("KEY_2", Some 50);
   ("KEY_3", Some 51); ("KEY_4", Some 52); ("KEY_5", Some 53);
   ("KEY_6", Some 54); ("KEY_7", Some 55); ("KEY_8", Some 56);
   ("KEY_9", Some 57); ("KEY_COLON", Some 58); ("KEY_SEMICOLON", Some 59);
   ("KEY_LESS", Some 60); ("KEY_EQUALS", Some 61); ("KEY_GREATER", Some 62);
   ("KEY_QUESTION", Some 63); ("KEY_AT", Some 64);
   ("KEY_LEFTBRACKET", Some 91); ("KEY_BACKSLASH", Some 92);
   ("KEY_RIGHTBRACKET", Some 93); ("KEY_CARET", Some 94);
   ("KEY_UNDERSCORE", Some 95); ("KEY_BACKQUOTE", Some 96);
   ("KEY_a", Some 97); ("KEY_b", Some 98); ("KEY_c", Some 99);
   ("KEY_d", Some 100); ("KEY_e", Some 101); ("KEY_f", Some 102);
   ("KEY_g", Some 103); ("KEY_h", Some 104); ("KEY_i", Some 105);
   ("KEY_j", Some 106); ("KEY_k", Some 107); ("KEY_l", Some 108);
   ("KEY_m", Some 109); ("KEY_n", Some 110); ("KEY_o", Some 111);
   ("KEY_p", Some 112); ("KEY_q", Some 113); ("KEY_r", Some 114);
   ("KEY_s", Some 115); ("KEY_t", Some 116); ("KEY_u", Some 117);
   ("KEY_v", Some 118); ("KEY_w", Some 119); ("KEY_x", Some 120);
   ("KEY_y", Some 121); ("KEY_z", Some 122); ("KEY_DELETE", Some 127);
   ("KEY_KP0", Some 256); ("KEY_KP1", Some 257); ("KEY_KP2", Some 258);
   ("KEY_KP3", Some 259); ("KEY_KP4", Some 260); ("KEY_KP5", Some 261);
   ("KEY_KP6", Some 262); ("KEY_KP7", Some 263); ("KEY_KP8", Some 264);
   ("KEY_KP9", Some 265); ("KEY_KP_PERIOD", Some 266);
   ("KEY_KP_DIVIDE", Some 267); ("KEY_KP_MULTIPLY", Some 268);
   ("KEY_KP_MINUS", Some 269); ("KEY_KP_PLUS", Some 270);
   ("KEY_KP_ENTER", Some 271); ("KEY_KP_EQUALS", Some 272);
   ("KEY_UP", Some 273); ("KEY_DOWN", Some 274); ("KEY_RIGHT", Some 275);
   ("KEY_LEFT", Some 276); ("KEY_INSERT", Some 277); ("KEY_HOME", Some 278);
   ("KEY_END", Some 279); ("KEY_PAGEUP", Some 280);
   ("KEY_PAGEDOWN", Some 281); ("KEY_F1", Some 282); ("KEY_F2", Some 283);
   ("KEY_F3", Some 284); ("KEY_F4", Some 285); ("KEY_F5", Some 286);
   ("KEY_F6", Some 287); ("KEY_F7", Some 288); ("KEY_F8", Some 289);
   ("KEY_F9", Some 290); ("KEY_F10", Some 291); ("KEY_F11", Some 292);
   ("KEY_F12", Some 293); ("KEY_F13", Some 294); ("KEY_F14", Some 295);
   ("KEY_F15", Some 296); ("KEY_NUMLOCK", Some 300);
   ("KEY_CAPSLOCK", Some 301); ("KEY_SCROLLOCK", Some 302);
   ("KEY_RSHIFT", Some 303); ("KEY_LSHIFT", Some 304);
   ("KEY_RCTRL", Some 305); ("KEY_LCTRL", Some 306); ("KEY_RALT", Some 307);
   ("KEY_LALT", Some 308); ("KEY_RMETA", Some 309); ("KEY_LMETA", Some 310);
   ("KEY_LSUPER", Some 311); ("KEY_RSUPER", Some 312);
   ("KEY_MODE", Some 313); ("KEY_COMPOSE", Some 314); ("KEY_HELP", Some 315);
   ("KEY_PRINT", Some 316); ("KEY_SYSREQ", Some 317);
   ("KEY_BREAK", Some 318); ("KEY_MENU", Some 319); ("KEY_POWER", Some 320);
   ("KEY_EURO", Some 321); ("KEY_UNDO", Some 322); ("KEY_LAST", None)].

Definition key_codes : list (String.string * Z) := enum_values 0 key_enum.

(** The value of the enumerator [name]. *)
Fixpoint value_of (name : String.string) (table : list (String.string * Z)) : option Z :=
  match table with
  | [] => None
  | (n, v) :: rest => if String.eqb n name then Some v else value_of name rest
  end.

Definition KEY_LSUPER : Z := 311.

(** [SYSTEM_COMMAND_MOD] is [nanogui::KEY_LSUPER] when [__APPLE__] is
    defined and [nanogui::CTRL_DOWN] otherwise; [apple] tells which. *)
Definition SYSTEM_COMMAND_MOD (apple : bool) : Z :=
  if apple then KEY_LSUPER else CTRL_DOWN.

(** The name of the key of a character, [KEY_] followed by it. *)
Definition key_name (ch : Ascii.ascii) : String.string :=
  String.append "KEY_" (String.String ch String.EmptyString).

Definition ascii_code (ch : Ascii.ascii) : Z := Z.of_N (Ascii.N_of_ascii ch).

(** The characters [a] to [z] and [0] to [9]. *)
Definition is_lower_or_digit (ch : Ascii.ascii) : bool :=
  (97 <=? ascii_code ch) && (ascii_code ch <=? 122)
  || (48 <=? ascii_code ch) && (ascii_code ch <=? 57).

(** The test of a modifier word against a mask, [(mods & mask) != 0]. *)
Definition mask_test (mods mask : Z) : bool := negb (Z.land mods mask =? 0).

End Keys.

(** ** The operations of the header *)

Module Api.

(** A call of one of the operations the header defines, with its
    arguments: the eleven constructors of [Color] on scalars and
    fixed-size vectors, the constructor and the assignment from an Eigen
    expression, the six channel accessors, [contrastingColor], the
    conversion to [NVGcolor], the two icon predicates and [utf8]. *)
Inductive call : Type :=
  | call_Color_default
  | call_Color_Vector4f (color : Eigen.Vector4f)
  | call_Color_Vector3f_float (color : Eigen.Vector3f) (alpha : F32.float)
  | call_Color_Vector3i_int (color : Eigen.Vector3i) (alpha : Z)
  | call_Color_Vector3f (color : Eigen.Vector3f)
  | call_Color_Vector3i (color : Eigen.Vector3i)
  | call_Color_Vector4i (color : Eigen.Vector4i)
  | call_Color_float_float (intensity alpha : F32.float)
  | call_Color_int_int (intensity alpha : Z)
  | call_Color_floats (r g b a : F32.float)
  | call_Color_ints (r g b a : Z)
  | call_Color_MatrixBase (p : Eigen.VectorXf)
  | call_assign_MatrixBase (self : Color.t) (p : Eigen.VectorXf)
  | call_r_const (self : Color.t)
  | call_g_const (self : Color.t)
  | call_b_const (self : Color.t)
  | call_r_ref (self : Color.t)
  | call_g_ref (self : Color.t)
  | call_b_ref (self : Color.t)
  | call_contrastingColor (o : Eigen.reduction) (self : Color.t)
  | call_to_NVGcolor (self : Color.t)
  | call_nvgIsImageIcon (value : Z)
  | call_nvgIsFontIcon (value : Z)
  | call_utf8 (seq0 : Utf8.char_array) (c : Z).

(** What a call returns. *)
Inductive result : Type :=
  | of_Color (col : Color.t)
  | of_float (x : F32.float)
  | of_ref (ref : Color.ref)
  | of_NVGcolor (col : Color.NVGcolor)
  | of_bool (b : bool)
  | of_array (seq : Utf8.char_array).

(** The result of a call, [None] when it has none. *)
Definition eval (k : call) : option result :=
  match k with
  | call_Color_default => Some (of_Color Color.default)
  | call_Color_Vector4f color => Some (of_Color (Color.from_Vector4f color))
  | call_Color_Vector3f_float color alpha =>
      Some (of_Color (Color.from_Vector3f_float color alpha))
  | call_Color_Vector3i_int color alpha =>
      Some (of_Color (Color.from_Vector3i_int color alpha))
  | call_Color_Vector3f color => Some (of_Color (Color.from_Vector3f color))
  | call_Color_Vector3i color => Some (of_Color (Color.from_Vector3i color))
  | call_Color_Vector4i color => Some (of_Color (Color.from_Vector4i color))
  | call_Color_float_float intensity alpha =>
      Some (of_Color (Color.from_float_float intensity alpha))
  | call_Color_int_int intensity alpha =>
      Some (of_Color (Color.from_int_int intensity alpha))
  | call_Color_floats r g b a => Some (of_Color (Color.from_floats r g b a))
  | call_Color_ints r g b a => Some (of_Color (Color.from_ints r g b a))
  | call_Color_MatrixBase p => of_Color <$> Color.from_MatrixBase p
  | call_assign_MatrixBase self p => of_Color <$> Color.assign_MatrixBase self p
  | call_r_const self => Some (of_float (Color.r self))
  | call_g_const self => Some (of_float (Color.g self))
  | call_b_const self => Some (of_float (Color.b self))
  | call_r_ref self => Some (of_ref (Color.r_ref self))
  | call_g_ref self => Some (of_ref (Color.g_ref self))
  | call_b_ref self => Some (of_ref (Color.b_ref self))
  | call_contrastingColor o self => Some (of_Color (Color.contrastingColor o self))
  | call_to_NVGcolor self => Some (of_NVGcolor (Color.to_NVGcolor self))
  | call_nvgIsImageIcon value => Some (of_bool (nvgIsImageIcon value))
  | call_nvgIsFontIcon value => Some (of_bool (nvgIsFontIcon value))
  | call_utf8 seq0 c => of_array <$> Utf8.utf8 seq0 c
  end.



End Api.

(** * Properties *)

(** ** Bit operations as arithmetic *)

Section BitArith.

(** OR-ing a multiple of [2^k] onto a value below [2^k] adds it. *)
Lemma lor_add_disjoint (a m k : Z) :
  0 <= k -> 0 <= a < 2 ^ k -> m mod 2 ^ k = 0 -> Z.lor a m = a + m.
Proof.
  intros Hk Ha Hm. symmetry. apply Z.add_nocarry_lor.
  apply Z.bits_inj'. intros n Hn.
  rewrite Z.land_spec, Z.bits_0.
  destruct (Z.lt_ge_cases n k) as [Hlt | Hge].
  - assert (Hm' : m = m / 2 ^ k * 2 ^ k).
    { pose proof (Z.div_mod m (2 ^ k)) as D. lia. }
    rewrite Hm', Z.mul_pow2_bits_low by lia. apply andb_false_r.
  - rewrite <- (Z.mod_small a (2 ^ k)) by lia.
    rewrite Z.mod_pow2_bits_high by lia. reflexivity.
Qed.

Lemma land_0x3f (v : Z) : Z.land v 0x3f = v mod 2 ^ 6.
Proof. change 0x3f with (Z.ones 6). apply Z.land_ones. lia. Qed.

Lemma shiftr_6 (v : Z) : Z.shiftr v 6 = v / 2 ^ 6.
Proof. apply Z.shiftr_div_pow2. lia. Qed.

(** The continuation byte the code stores, [0x80 | (v & 0x3f)]. *)
Lemma low_six_char (v : Z) :
  to_char (Utf8.low_six v) = 0x80 + v mod 2 ^ 6.
Proof.
  unfold Utf8.low_six. rewrite land_0x3f, Z.lor_comm.
  pose proof (Z.mod_pos_bound v (2 ^ 6) ltac:(lia)) as B.
  rewrite (lor_add_disjoint _ 0x80 6) by (lia || reflexivity).
  unfold to_char. rewrite Z.mod_small; lia.
Qed.

(** The update of [c] between two stores, [c = c >> 6; c |= mark]. *)
Lemma shift_mark_add (k v mark : Z) :
  0 <= k -> 0 <= v < 2 ^ (k + 6) -> mark mod 2 ^ k = 0 ->
  Utf8.shift_mark v mark = v / 2 ^ 6 + mark.
Proof.
  intros Hk Hv Hm. unfold Utf8.shift_mark. rewrite shiftr_6.
  apply (lor_add_disjoint _ _ k); [lia | | exact Hm].
  rewrite Z.pow_add_r in Hv by lia.
  split; [apply Z.div_pos; lia | apply Z.div_lt_upper_bound; lia].
Qed.

End BitArith.

(** ** Running [utf8] *)

Import Utf8.

Lemma store_in_range (i v : Z) (s : char_array) :
  0 <= i < Z.of_nat (length s) ->
  store i v s = Some (<[Z.to_nat i := to_char v]> s).
Proof.
  intros H. unfold store. destruct (decide _); [reflexivity | contradiction].
Qed.

Lemma store_out_of_range (i v : Z) (s : char_array) :
  ~ 0 <= i < Z.of_nat (length s) -> store i v s = None.
Proof.
  intros H. unfold store. destruct (decide _); [contradiction | reflexivity].
Qed.

(** One array write of the run, on an array given by its elements. *)
Ltac run_store :=
  rewrite store_in_range
    by (rewrite ?length_insert; cbn [length Z.of_nat Pos.of_succ_nat Pos.succ]; lia);
  cbn [mbind option_bind seq c].

(** The whole body of [utf8], once [n] is known. *)
Ltac run_utf8 Hn :=
  unfold utf8; rewrite Hn;
  unfold switch, case_6, case_5, case_4, case_3, case_2, case_1, emit;
  cbn [mbind option_bind seq c];
  repeat run_store.

(** Equality of two lists of the same length, element by element. *)
Ltac by_elements tac :=
  repeat match goal with
         | |- _ :: _ = _ :: _ => f_equal
         end;
  try reflexivity; tac.

Ltac div_mod_lia := Z.div_mod_to_equations; lia.

(** An array is a list of eight elements. *)
Ltac as_elements s Hs :=
  unfold is_array, ARRAY_SIZE in Hs;
  do 8 (destruct s as [| ? s]; [discriminate Hs |]);
  destruct s; [clear Hs | discriminate Hs].

Section Runs.

Variables a0 a1 a2 a3 a4 a5 a6 a7 : Z.
Variable c0 : Z.

(** [c] on entry to the later cases, by the case the [switch] entered. *)
Local Abbreviation c65 := (shift_mark c0 0x4000000).
Local Abbreviation c64 := (shift_mark c65 0x200000).
Local Abbreviation c63 := (shift_mark c64 0x10000).
Local Abbreviation c62 := (shift_mark c63 0x800).
Local Abbreviation c54 := (shift_mark c0 0x200000).
Local Abbreviation c53 := (shift_mark c54 0x10000).
Local Abbreviation c52 := (shift_mark c53 0x800).
Local Abbreviation c43 := (shift_mark c0 0x10000).
Local Abbreviation c42 := (shift_mark c43 0x800).
Local Abbreviation c32 := (shift_mark c0 0x800).

Lemma utf8_run_1 : utf8_length c0 = 1 ->
  utf8 [a0; a1; a2; a3; a4; a5; a6; a7] c0 =
  Some [to_char c0; 0; a2; a3; a4; a5; a6; a7].
Proof. intros Hn. run_utf8 Hn. reflexivity. Qed.

Lemma utf8_run_2 : utf8_length c0 = 2 ->
  utf8 [a0; a1; a2; a3; a4; a5; a6; a7] c0 =
  Some [to_char (shift_mark c0 0xc0); to_char (low_six c0);
        0; a3; a4; a5; a6; a7].
Proof. intros Hn. run_utf8 Hn. reflexivity. Qed.

Lemma utf8_run_3 : utf8_length c0 = 3 ->
  utf8 [a0; a1; a2; a3; a4; a5; a6; a7] c0 =
  Some [to_char (shift_mark c32 0xc0); to_char (low_six c32);
        to_char (low_six c0);
        0; a4; a5; a6; a7].
Proof. intros Hn. run_utf8 Hn. reflexivity. Qed.

Lemma utf8_run_4 : utf8_length c0 = 4 ->
  utf8 [a0; a1; a2; a3; a4; a5; a6; a7] c0 =
  Some [to_char (shift_mark c42 0xc0); to_char (low_six c42);
        to_char (low_six c43); to_char (low_six c0);
        0; a5; a6; a7].
Proof. intros Hn. run_utf8 Hn. reflexivity. Qed.

Lemma utf8_run_5 : utf8_length c0 = 5 ->
  utf8 [a0; a1; a2; a3; a4; a5; a6; a7] c0 =
  Some [to_char (shift_mark c52 0xc0); to_char (low_six c52);
        to_char (low_six c53); to_char (low_six c54);
        to_char (low_six c0);
        0; a6; a7].
Proof. intros Hn. run_utf8 Hn. reflexivity. Qed.

Lemma utf8_run_6 : utf8_length c0 = 6 ->
  utf8 [a0; a1; a2; a3; a4; a5; a6; a7] c0 =
  Some [to_char (shift_mark c62 0xc0); to_char (low_six c62);
        to_char (low_six c63); to_char (low_six c64);
        to_char (low_six c65); to_char (low_six c0);
        0; a7].
Proof. intros Hn. run_utf8 Hn. reflexivity. Qed.

End Runs.

(** The values [n] can take. *)
Lemma utf8_length_cases (c0 : Z) :
  is_int c0 ->
  utf8_length c0 = 1 \/ utf8_length c0 = 2 \/ utf8_length c0 = 3 \/
  utf8_length c0 = 4 \/ utf8_length c0 = 5 \/ utf8_length c0 = 6.
Proof.
  unfold is_int, INT_MAX, utf8_length. intros [_ Hmax].
  repeat (destruct (_ <? _); [tauto |]).
  destruct (Z.leb_spec c0 0x7fffffff); [tauto | lia].
Qed.

Lemma utf8_length_standard (c0 : Z) :
  0 <= c0 <= 0x10FFFF -> utf8_length c0 = Z.of_nat (standard_length c0).
Proof.
  intros H. unfold utf8_length, standard_length.
  repeat match goal with
         | |- context [?u <? ?v] => destruct (Z.ltb_spec u v); [reflexivity || lia |]
         end.
  lia.
Qed.

(** The standard table reads back to the code point it encodes. *)
Lemma utf8_decode_standard (c0 : Z) :
  0 <= c0 <= 0x10FFFF -> utf8_decode (utf8_standard c0) = Some c0.
Proof.
  intros H. unfold utf8_standard.
  destruct (standard_length c0) as [| [| [| [| k]]]]; cbn [utf8_decode];
    try reflexivity; f_equal; Z.div_mod_to_equations; lia.
Qed.

(** The standard table has the lead prefix of its length and
    continuation bytes after it. *)
Lemma utf8_standard_well_prefixed (c0 : Z) :
  0 <= c0 <= 0x10FFFF -> well_prefixed (utf8_standard c0) = true.
Proof.
  intros H. unfold utf8_standard, standard_length.
  repeat match goal with
         | |- context [?u <? ?v] => destruct (Z.ltb_spec u v)
         end;
    cbn [well_prefixed length lead_prefix forallb]; unfold is_continuation;
    rewrite ?andb_true_iff, ?Z.leb_le; repeat split;
    try div_mod_lia.
Qed.

(** ** The UTF-8 encoder: correctness on Unicode code points *)

(** C1. For every code point [c0] with [0 <= c0 <= 0x10FFFF], whatever the
    array held before, [utf8 c0] returns an array whose first [n] bytes
    are the standard UTF-8 encoding of [c0], where [n] is 1, 2, 3 or 4 by
    the size of [c0]; that encoding has the lead-byte prefix of its length
    and continuation bytes in [0x80 .. 0xBF], and reads back to [c0]; the
    byte at index [n] is NUL. *)
Theorem utf8_standard_encoding (seq0 : char_array) (c0 : Z) :
  is_array seq0 -> 0 <= c0 <= 0x10FFFF ->
  exists out : char_array,
    utf8 seq0 c0 = Some out /\
    take (standard_length c0) out = utf8_standard c0 /\
    out !! standard_length c0 = Some 0 /\
    well_prefixed (utf8_standard c0) = true /\
    utf8_decode (utf8_standard c0) = Some c0.
Proof.
  intros Hs Hc. as_elements seq0 Hs.
  pose proof (utf8_length_standard c0 Hc) as Hn.
  pose proof (utf8_standard_well_prefixed c0 Hc) as Hw.
  pose proof (utf8_decode_standard c0 Hc) as Hd.
  unfold utf8_standard in *. unfold standard_length in *.
  repeat match goal with
         | |- context [?u <? ?v] => destruct (Z.ltb_spec u v)
         end.
  - rewrite utf8_run_1 by exact Hn. eexists. split; [reflexivity |].
    repeat split; try assumption.
    cbn [take]. unfold to_char. rewrite Z.mod_small by lia. reflexivity.
  - rewrite utf8_run_2 by exact Hn. eexists. split; [reflexivity |].
    repeat split; try assumption.
    cbn [take]. rewrite low_six_char.
    rewrite (shift_mark_add 6 _ 0xc0) by (lia || reflexivity).
    unfold to_char. rewrite Z.mod_small by div_mod_lia.
    by_elements lia.
  - rewrite utf8_run_3 by exact Hn. eexists. split; [reflexivity |].
    repeat split; try assumption.
    cbn [take]. rewrite !low_six_char.
    rewrite (shift_mark_add 11 c0 0x800) by (lia || reflexivity).
    rewrite (shift_mark_add 6 _ 0xc0) by (reflexivity || div_mod_lia).
    unfold to_char. rewrite Z.mod_small by div_mod_lia.
    by_elements div_mod_lia.
  - assert (Hn4 : utf8_length c0 = 4) by exact Hn.
    rewrite utf8_run_4 by exact Hn4. eexists. split; [reflexivity |].
    repeat split; try assumption.
    cbn [take]. rewrite !low_six_char.
    rewrite (shift_mark_add 16 c0 0x10000) by (lia || reflexivity).
    rewrite (shift_mark_add 11 _ 0x800) by (reflexivity || div_mod_lia).
    rewrite (shift_mark_add 6 _ 0xc0) by (reflexivity || div_mod_lia).
    unfold to_char. rewrite Z.mod_small by div_mod_lia.
    by_elements div_mod_lia.
Qed.

Lemma utf8_standard_encoding_witness :
  exists out : char_array,
    utf8 [1; 2; 3; 4; 5; 6; 7; 8] 0x20AC = Some out /\
    take 3 out = [0xE2; 0x82; 0xAC] /\
    out !! 3%nat = Some 0 /\
    well_prefixed [0xE2; 0x82; 0xAC] = true /\
    utf8_decode [0xE2; 0x82; 0xAC] = Some 0x20AC.
Proof.
  apply (utf8_standard_encoding [1; 2; 3; 4; 5; 6; 7; 8] 0x20AC).
  - reflexivity.
  - lia.
Defined.

(** ** The UTF-8 encoder: totality and bounds *)

(** The bounds check of [store] rejects a write past the end: on an array
    too short for the sequence the run stops. *)
Lemma utf8_short_array : utf8 [0; 0] 0x20AC = None.
Proof. reflexivity. Qed.






(** ** The UTF-8 encoder: what a call determines *)

(** Two calls on the same code point can return different arrays: the
    bytes after the NUL are those the array held before the call. *)
Lemma utf8_tail_not_determined :
  utf8 [0; 0; 0; 0; 0; 0; 0; 0] 0x41 = Some [0x41; 0; 0; 0; 0; 0; 0; 0] /\
  utf8 [9; 9; 9; 9; 9; 9; 9; 9] 0x41 = Some [0x41; 0; 9; 9; 9; 9; 9; 9] /\
  utf8 [0; 0; 0; 0; 0; 0; 0; 0] 0x41 <> utf8 [9; 9; 9; 9; 9; 9; 9; 9] 0x41.
Proof. repeat split; try reflexivity. discriminate. Qed.

(** C4 (as amended). Every function of the header is a function of its
    arguments alone, with one proviso for [utf8]: the array it returns is
    determined by the code point in its first [n + 1] bytes, the encoded
    bytes and the NUL, while the bytes after them are the ones the
    uninitialised array held and are never written. *)
Theorem utf8_determined_up_to_nul (s1 s2 : char_array) (c0 : Z) :
  is_array s1 -> is_array s2 -> is_int c0 ->
  let n := Z.to_nat (utf8_length c0) in
  (exists out1 out2 : char_array,
      utf8 s1 c0 = Some out1 /\ utf8 s2 c0 = Some out2 /\
      take (S n) out1 = take (S n) out2 /\
      drop (S n) out1 = drop (S n) s1 /\
      drop (S n) out2 = drop (S n) s2) /\
  (forall v1 v2 : Z, v1 = v2 -> nvgIsImageIcon v1 = nvgIsImageIcon v2) /\
  (forall v1 v2 : Z, v1 = v2 -> nvgIsFontIcon v1 = nvgIsFontIcon v2) /\
  (forall o (x1 x2 : Color.t), x1 = x2 ->
      Color.contrastingColor o x1 = Color.contrastingColor o x2).
Proof.
  intros H1 H2 Hc n. split; [| repeat split; intros; subst; reflexivity].
  as_elements s1 H1. as_elements s2 H2. subst n.
  destruct (utf8_length_cases c0 Hc) as [Hn | [Hn | [Hn | [Hn | [Hn | Hn]]]]];
    rewrite Hn;
    [ rewrite !utf8_run_1 by exact Hn | rewrite !utf8_run_2 by exact Hn
    | rewrite !utf8_run_3 by exact Hn | rewrite !utf8_run_4 by exact Hn
    | rewrite !utf8_run_5 by exact Hn | rewrite !utf8_run_6 by exact Hn ];
    do 2 eexists; repeat split; reflexivity.
Qed.

Lemma utf8_determined_up_to_nul_witness :
  exists out1 out2 : char_array,
    utf8 [0; 0; 0; 0; 0; 0; 0; 0] 0x20AC = Some out1 /\
    utf8 [9; 9; 9; 9; 9; 9; 9; 9] 0x20AC = Some out2 /\
    take 4 out1 = take 4 out2 /\
    drop 4 out1 = [0; 0; 0; 0] /\ drop 4 out2 = [9; 9; 9; 9].
Proof.
  assert (H1 : is_array [0; 0; 0; 0; 0; 0; 0; 0]) by reflexivity.
  assert (H2 : is_array [9; 9; 9; 9; 9; 9; 9; 9]) by reflexivity.
  assert (Hc : is_int 0x20AC) by (unfold is_int, INT_MIN, INT_MAX; lia).
  exact (proj1 (utf8_determined_up_to_nul _ _ 0x20AC H1 H2 Hc)).
Defined.

(** ** Icon identifiers *)

(** C8. For every [int] value, [nvgIsFontIcon] is true exactly when
    [nvgIsImageIcon] is false: the two split the integers at 1024, and
    1024 itself is a font icon. *)
Theorem icon_predicates_partition (value : Z) :
  (nvgIsFontIcon value = true <-> nvgIsImageIcon value = false) /\
  (nvgIsImageIcon value = true <-> value < 1024) /\
  (nvgIsFontIcon value = true <-> 1024 <= value) /\
  nvgIsFontIcon 1024 = true /\ nvgIsImageIcon 1024 = false.
Proof.
  unfold nvgIsFontIcon, nvgIsImageIcon.
  rewrite Z.geb_leb, Z.leb_le, Z.ltb_lt, Z.ltb_ge.
  repeat split; intros; (lia || reflexivity).
Qed.

(** ** Modifier codes *)

Section Modifiers.

(** The word of a set has the bit of a modifier exactly when the modifier
    is in the set. *)
Lemma mask_of_canonical (s : list modifier) :
  mask_of s =
  Z.lor (if bool_decide (Shift ∈ s) then SHIFT_DOWN else 0)
    (Z.lor (if bool_decide (Alt ∈ s) then ALT_DOWN else 0)
       (Z.lor (if bool_decide (Ctrl ∈ s) then CTRL_DOWN else 0)
          (if bool_decide (Meta ∈ s) then META_DOWN else 0))).
Proof.
  induction s as [| m s IH]; [reflexivity |].
  cbn [mask_of foldr]. fold (mask_of s). rewrite IH. clear IH.
  assert (E : forall m', bool_decide (m' ∈ m :: s)
                         = bool_decide (m' = m) || bool_decide (m' ∈ s)).
  { intros m'. apply eq_true_iff_eq.
    rewrite orb_true_iff, !bool_decide_eq_true. apply elem_of_cons. }
  rewrite !E.
  destruct m; destruct (bool_decide (Shift ∈ s)), (bool_decide (Alt ∈ s)),
    (bool_decide (Ctrl ∈ s)), (bool_decide (Meta ∈ s)); reflexivity.
Qed.

Lemma is_down_mask_of (s : list modifier) (m : modifier) :
  is_down (mask_of s) m = bool_decide (m ∈ s).
Proof.
  rewrite mask_of_canonical.
  destruct m; destruct (bool_decide (Shift ∈ s)), (bool_decide (Alt ∈ s)),
    (bool_decide (Ctrl ∈ s)), (bool_decide (Meta ∈ s)); reflexivity.
Qed.

End Modifiers.

(** C7. [SHIFT_DOWN], [ALT_DOWN], [CTRL_DOWN] and [META_DOWN] are
    [0x0008], [0x0010], [0x0020] and [0x0040]: pairwise distinct, each a
    single bit.  So the OR of a set of them tells, by an AND test with a
    code, whether that modifier is in the set, and two sets have the same
    word exactly when they have the same members. *)
Theorem modifier_masks_encode_subsets :
  (SHIFT_DOWN = 0x0008 /\ ALT_DOWN = 0x0010 /\
   CTRL_DOWN = 0x0020 /\ META_DOWN = 0x0040) /\
  (forall m1 m2 : modifier, code m1 = code m2 -> m1 = m2) /\
  (forall m : modifier, exists k : Z, 0 <= k /\ code m = 2 ^ k) /\
  (forall (s : list modifier) (m : modifier),
      is_down (mask_of s) m = true <-> m ∈ s) /\
  (forall s1 s2 : list modifier,
      mask_of s1 = mask_of s2 <-> (forall m, m ∈ s1 <-> m ∈ s2)).
Proof.
  split; [repeat split |]. split; [| split; [| split]].
  - intros [] []; (reflexivity || discriminate).
  - intros []; [exists 3 | exists 4 | exists 5 | exists 6]; split; (lia || reflexivity).
  - intros s m. rewrite is_down_mask_of. apply bool_decide_eq_true.
  - intros s1 s2. split.
    + intros E m.
      rewrite <- (bool_decide_eq_true (m ∈ s1)), <- (bool_decide_eq_true (m ∈ s2)).
      rewrite <- !is_down_mask_of, E. reflexivity.
    + intros E. rewrite !mask_of_canonical.
      rewrite !(bool_decide_ext _ _ (E _)). reflexivity.
Qed.

(** ** Floating-point literals *)

Section Literals.

(** Each literal is a value of the format, and is the correctly rounded
    quotient of the decimal it is written as. *)
Lemma literals_valid :
  forallb F32.valid
    [F32.lit_0; F32.lit_1; F32.lit_0_5; F32.lit_255; F32.lit_0_299;
     F32.lit_0_587; F32.lit_0_144; F32.lit_0_114] = true.
Proof. vm_compute. reflexivity. Qed.

Lemma literals_nearest :
  F32.lit_0 = F32.of_int 0 /\
  F32.lit_1 = F32.of_int 1 /\
  F32.lit_255 = F32.of_int 255 /\
  F32.lit_0_5 = F32.div (F32.of_int 5) (F32.of_int 10) /\
  F32.lit_0_299 = F32.div (F32.of_int 299) (F32.of_int 1000) /\
  F32.lit_0_587 = F32.div (F32.of_int 587) (F32.of_int 1000) /\
  F32.lit_0_144 = F32.div (F32.of_int 144) (F32.of_int 1000) /\
  F32.lit_0_114 = F32.div (F32.of_int 114) (F32.of_int 1000).
Proof. vm_compute. repeat split. Qed.

End Literals.

(** ** Colour constructors *)

(** C10. The default constructor gives transparent black: red, green,
    blue and alpha are all [0]. *)
Theorem default_color_is_zero :
  Color.r Color.default = F32.lit_0 /\
  Color.g Color.default = F32.lit_0 /\
  Color.b Color.default = F32.lit_0 /\
  Eigen.w Color.default = F32.lit_0 /\
  Color.default = Eigen.mk4f F32.lit_0 F32.lit_0 F32.lit_0 F32.lit_0.
Proof. vm_compute. repeat split. Qed.

(** C5. The integer constructors divide every integer channel by [255.f]
    after converting it to [float]: [Color (int r, int g, int b, int a)]
    is [Color (r/255.f, g/255.f, b/255.f, a/255.f)], and so are
    [Color (Vector4i)] and [Color (Vector3i, int)] on the same channels;
    [Color (Vector3i)] does it for its three channels, with alpha [1];
    [Color (int intensity, int alpha)] uses the intensity for red, green
    and blue. *)
Theorem int_constructors_divide_by_255 (r g b a : Z) :
  let scaled (v : Z) := F32.div (F32.of_int v) F32.lit_255 in
  Color.from_ints r g b a =
    Color.from_floats (scaled r) (scaled g) (scaled b) (scaled a) /\
  Color.from_Vector4i (Eigen.mk4i r g b a) =
    Color.from_floats (scaled r) (scaled g) (scaled b) (scaled a) /\
  Color.from_Vector3i_int (Eigen.mk3i r g b) a =
    Color.from_floats (scaled r) (scaled g) (scaled b) (scaled a) /\
  Color.from_Vector3i (Eigen.mk3i r g b) =
    Color.from_floats (scaled r) (scaled g) (scaled b) F32.lit_1 /\
  Color.from_int_int r a =
    Color.from_floats (scaled r) (scaled r) (scaled r) (scaled a).
Proof. intros scaled. repeat split. Qed.

(** ** Channel accessors *)

(** C6. [r()], [g()] and [b()] return the first, second and third
    component of the underlying vector, through the reference as well as
    by the [const] versions; a call of a [const] version leaves the colour
    as it was, and so does assigning a channel the value it has. *)
Theorem accessors_are_components (self : Color.t) :
  (Eigen.coeff4 self 0 = Some (Color.r self) /\
   Eigen.coeff4 self 1 = Some (Color.g self) /\
   Eigen.coeff4 self 2 = Some (Color.b self)) /\
  (Color.load (Color.r_ref self) = Color.r self /\
   Color.load (Color.g_ref self) = Color.g self /\
   Color.load (Color.b_ref self) = Color.b self) /\
  (Color.call_const Color.r self = (Eigen.f0 self, self) /\
   Color.call_const Color.g self = (Eigen.f1 self, self) /\
   Color.call_const Color.b self = (Eigen.f2 self, self)) /\
  (Color.assign (Color.r_ref self) (Color.r self) = self /\
   Color.assign (Color.g_ref self) (Color.g self) = self /\
   Color.assign (Color.b_ref self) (Color.b self) = self).
Proof. destruct self. repeat split. Qed.

(** ** Contrasting colour *)

Section Contrast.

Import Eigen Color.

Lemma contrastingColor_cases (o : reduction) (self : Color.t) :
  (F32.ltb (luminance o self) F32.lit_0_5 = true /\
   contrastingColor o self = white) \/
  (F32.ltb (luminance o self) F32.lit_0_5 = false /\
   contrastingColor o self = black).
Proof.
  unfold contrastingColor.
  destruct (F32.ltb (luminance o self) F32.lit_0_5); [left | right];
    split; reflexivity.
Qed.

Lemma contrastingColor_white (o : reduction) : contrastingColor o white = black.
Proof. destruct o; vm_compute; reflexivity. Qed.

Lemma contrastingColor_black (o : reduction) : contrastingColor o black = white.
Proof. destruct o; vm_compute; reflexivity. Qed.

Lemma mul_finite_zero (a : F32.float) :
  F32.is_finite a = true -> exists s, F32.mul a F32.lit_0 = SpecFloat.S754_zero s.
Proof.
  destruct a as [s | s | | s m e]; intros H; try discriminate H;
    eexists; reflexivity.
Qed.

Lemma add_zero_like_r (u v v' : F32.float) :
  F32.zero_like v v' -> F32.zero_like (F32.add u v) (F32.add u v').
Proof.
  intros [-> | (s & s' & -> & ->)]; [left; reflexivity |].
  destruct u as [su | su | | su m e]; [| left; reflexivity ..].
  right. destruct su, s, s'; do 2 eexists; split; reflexivity.
Qed.

Lemma ltb_zero_like (u u' h : F32.float) :
  F32.zero_like u u' -> F32.ltb u h = F32.ltb u' h.
Proof.
  intros [-> | (s & s' & -> & ->)]; [reflexivity |].
  destruct h; reflexivity.
Qed.

(** A finite alpha has no part in the result: its product with [0.f] is
    a zero, which changes no sum by more than the sign of a zero. *)
Lemma contrastingColor_finite_alpha (o : reduction) (r g b a a' : F32.float) :
  F32.is_finite a = true -> F32.is_finite a' = true ->
  contrastingColor o (mk4f r g b a) = contrastingColor o (mk4f r g b a').
Proof.
  intros Ha Ha'.
  destruct (mul_finite_zero a Ha) as [s Hz].
  destruct (mul_finite_zero a' Ha') as [s' Hz'].
  assert (Z0 : F32.zero_like (F32.mul a F32.lit_0) (F32.mul a' F32.lit_0)).
  { right. exists s, s'. split; assumption. }
  unfold contrastingColor. f_equal.
  assert (E : F32.ltb (luminance o (mk4f r g b a)) F32.lit_0_5
              = F32.ltb (luminance o (mk4f r g b a')) F32.lit_0_5).
  { apply ltb_zero_like.
    unfold luminance, cwiseProduct, from_floats, from_Vector4f.
    cbn [f0 f1 f2 f3].
    destruct o; cbn [sum f0 f1 f2 f3]; repeat apply add_zero_like_r; exact Z0. }
  rewrite E. reflexivity.
Qed.

(** An alpha that is not finite does: its product with [0.f] is a NaN,
    no NaN is below [0.5f], and the result is black. *)
Lemma contrastingColor_nan_alpha (o : reduction) :
  contrastingColor o (mk4f F32.lit_0 F32.lit_0 F32.lit_0 F32.lit_1) = white /\
  contrastingColor o (mk4f F32.lit_0 F32.lit_0 F32.lit_0 SpecFloat.S754_nan) = black /\
  contrastingColor o
    (mk4f F32.lit_0 F32.lit_0 F32.lit_0 (SpecFloat.S754_infinity false)) = black.
Proof. destruct o; vm_compute; repeat split. Qed.

End Contrast.

(** C9. Whatever the input, the result of [contrastingColor] has alpha
    [1] and red, green and blue equal to one another, all [0] or all [1].
    [contrastingColor] sends white to black and black to white, so applied
    twice more to a result it gives that result back, and applied once
    more it does not. *)
Theorem contrastingColor_image (o : Eigen.reduction) (self : Color.t) :
  let res := Color.contrastingColor o self in
  Eigen.w res = F32.lit_1 /\
  Color.r res = Color.g res /\ Color.g res = Color.b res /\
  (Color.r res = F32.lit_0 \/ Color.r res = F32.lit_1) /\
  Color.contrastingColor o (Color.contrastingColor o res) = res /\
  Color.contrastingColor o res <> res.
Proof.
  intros res. subst res.
  destruct (contrastingColor_cases o self) as [[_ E] | [_ E]]; rewrite E.
  - rewrite contrastingColor_white, contrastingColor_black.
    repeat split; try reflexivity; [right; reflexivity | discriminate].
  - rewrite contrastingColor_black, contrastingColor_white.
    repeat split; try reflexivity; [left; reflexivity | discriminate].
Qed.

(** C2. The weight of blue in [contrastingColor] is [0.144f], where the
    luminance formula has [0.114].  At the colour (1, 0.125, 1, 1) the
    luminance [0.299*r + 0.587*g + 0.114*b] is 0.486375, below [0.5], and
    the rule as stated answers white; the code computes 0.516375 and
    answers black, in every order of summation. *)
Theorem contrastingColor_blue_weight (o : Eigen.reduction) :
  let eighth := SpecFloat.S754_finite false 8388608 (-26) in
  let magenta := Color.from_floats F32.lit_1 eighth F32.lit_1 F32.lit_1 in
  F32.div (F32.of_int 1) (F32.of_int 8) = eighth /\
  Color.luminance o magenta = SpecFloat.S754_finite false 8663335 (-24) /\
  Color.contrastingColor o magenta = Color.black /\
  Color.luminance_stated magenta = SpecFloat.S754_finite false 16320037 (-25) /\
  Color.contrastingColor_stated magenta = Color.white /\
  (Color.luminance_exact 1 (1 # 8) 1 < 1 # 2)%Q.
Proof. destruct o; vm_compute; repeat split. Qed.

(** * Further properties *)

(** ** The UTF-8 encoder on the whole range of [int] *)

Import Utf8Ext.

Lemma utf8_length_extended (c0 : Z) :
  0 <= c0 <= INT_MAX -> utf8_length c0 = Z.of_nat (extended_length c0).
Proof.
  unfold INT_MAX. intros H. unfold utf8_length, extended_length.
  repeat match goal with
         | |- context [?u <? ?v] => destruct (Z.ltb_spec u v); [reflexivity |]
         end.
  destruct (Z.leb_spec c0 0x7fffffff); [reflexivity | lia].
Qed.

Lemma utf8_extended_length (c0 : Z) :
  length (utf8_extended c0) = extended_length c0.
Proof.
  unfold utf8_extended.
  assert (H : (1 <= extended_length c0 <= 6)%nat).
  { unfold extended_length. repeat (destruct (_ <? _); [lia |]). lia. }
  destruct (extended_length c0) as [| [| [| [| [| [| [| k]]]]]]];
    try reflexivity; lia.
Qed.

(** The array [utf8] returns on [0 .. INT_MAX]. *)
Lemma utf8_extended_run (seq0 : char_array) (c0 : Z) :
  is_array seq0 -> 0 <= c0 <= INT_MAX ->
  utf8 seq0 c0 =
    Some (utf8_extended c0 ++ 0 :: drop (S (extended_length c0)) seq0) /\
  utf8_length c0 = Z.of_nat (length (utf8_extended c0)).
Proof.
  intros Hs Hc. rewrite utf8_extended_length.
  pose proof (utf8_length_extended c0 Hc) as Hn.
  split; [| exact Hn].
  as_elements seq0 Hs. unfold INT_MAX in Hc.
  unfold utf8_extended. unfold extended_length in *.
  repeat match goal with
         | |- context [?u <? ?v] => destruct (Z.ltb_spec u v)
         end.
  - rewrite utf8_run_1 by exact Hn. cbn [app drop]. f_equal.
    unfold to_char. rewrite Z.mod_small by lia. reflexivity.
  - rewrite utf8_run_2 by exact Hn. cbn [app drop]. f_equal.
    rewrite low_six_char.
    rewrite (shift_mark_add 6 _ 0xc0) by (lia || reflexivity).
    unfold to_char. rewrite Z.mod_small by div_mod_lia.
    by_elements lia.
  - rewrite utf8_run_3 by exact Hn. cbn [app drop]. f_equal.
    rewrite !low_six_char.
    rewrite (shift_mark_add 11 c0 0x800) by (lia || reflexivity).
    rewrite (shift_mark_add 6 _ 0xc0) by (reflexivity || div_mod_lia).
    unfold to_char. rewrite Z.mod_small by div_mod_lia.
    by_elements div_mod_lia.
  - rewrite utf8_run_4 by exact Hn. cbn [app drop]. f_equal.
    rewrite !low_six_char.
    rewrite (shift_mark_add 16 c0 0x10000) by (lia || reflexivity).
    rewrite (shift_mark_add 11 _ 0x800) by (reflexivity || div_mod_lia).
    rewrite (shift_mark_add 6 _ 0xc0) by (reflexivity || div_mod_lia).
    unfold to_char. rewrite Z.mod_small by div_mod_lia.
    by_elements div_mod_lia.
  - rewrite utf8_run_5 by exact Hn. cbn [app drop]. f_equal.
    rewrite !low_six_char.
    rewrite (shift_mark_add 21 c0 0x200000) by (lia || reflexivity).
    rewrite (shift_mark_add 16 _ 0x10000) by (reflexivity || div_mod_lia).
    rewrite (shift_mark_add 11 _ 0x800) by (reflexivity || div_mod_lia).
    rewrite (shift_mark_add 6 _ 0xc0) by (reflexivity || div_mod_lia).
    unfold to_char. rewrite Z.mod_small by div_mod_lia.
    by_elements div_mod_lia.
  - rewrite utf8_run_6 by exact Hn. cbn [app drop]. f_equal.
    rewrite !low_six_char.
    rewrite (shift_mark_add 26 c0 0x4000000) by (lia || reflexivity).
    rewrite (shift_mark_add 21 _ 0x200000) by (reflexivity || div_mod_lia).
    rewrite (shift_mark_add 16 _ 0x10000) by (reflexivity || div_mod_lia).
    rewrite (shift_mark_add 11 _ 0x800) by (reflexivity || div_mod_lia).
    rewrite (shift_mark_add 6 _ 0xc0) by (reflexivity || div_mod_lia).
    unfold to_char. rewrite Z.mod_small by div_mod_lia.
    by_elements div_mod_lia.
Qed.

(** X1. For every [c0] from [0] to [INT_MAX], whatever the array held,
    [utf8 c0] returns the sequence of the original UTF-8 table (one to six
    bytes, lead bytes up to [0xFD]), then a NUL, then the bytes the array
    held before, unchanged.  Up to [0x10FFFF] that table is the standard
    one; past it the sequences have four, five or six bytes. *)
Theorem utf8_extended_encoding (seq0 : char_array) (c0 : Z) :
  is_array seq0 -> 0 <= c0 <= INT_MAX ->
  utf8 seq0 c0 =
    Some (utf8_extended c0 ++ 0 :: drop (S (extended_length c0)) seq0) /\
  utf8_length c0 = Z.of_nat (length (utf8_extended c0)) /\
  (c0 <= 0x10FFFF -> utf8_extended c0 = utf8_standard c0) /\
  (0x10FFFF < c0 -> (4 <= length (utf8_extended c0) <= 6)%nat).
Proof.
  intros Hs Hc. destruct (utf8_extended_run seq0 c0 Hs Hc) as [R L].
  split; [exact R |]. split; [exact L |]. split.
  - intros Hu. unfold utf8_extended, utf8_standard, extended_length, standard_length.
    repeat match goal with
           | |- context [?u <? ?v] => destruct (Z.ltb_spec u v); try reflexivity; try lia
           end.
  - intros Hu. rewrite utf8_extended_length. unfold extended_length.
    repeat match goal with
           | |- context [?u <? ?v] => destruct (Z.ltb_spec u v); try lia
           end.
Qed.

Lemma utf8_extended_encoding_witness :
  utf8 [1; 2; 3; 4; 5; 6; 7; 8] 0x7fffffff =
    Some [0xFD; 0xBF; 0xBF; 0xBF; 0xBF; 0xBF; 0; 8].
Proof.
  assert (Hs : is_array [1; 2; 3; 4; 5; 6; 7; 8]) by reflexivity.
  assert (Hc : 0 <= 0x7fffffff <= INT_MAX) by (unfold INT_MAX; lia).
  exact (proj1 (utf8_extended_encoding [1; 2; 3; 4; 5; 6; 7; 8] 0x7fffffff Hs Hc)).
Defined.

(** ** Reading the result back *)

Section ReadBack.

Lemma continuation_digit (v : Z) :
  is_continuation (0x80 + v mod 2 ^ 6) = true.
Proof.
  unfold is_continuation. rewrite andb_true_iff, !Z.leb_le. div_mod_lia.
Qed.

Lemma continuation_digit_nonzero (v : Z) : (0x80 + v mod 2 ^ 6 =? 0) = false.
Proof. apply Z.eqb_neq. div_mod_lia. Qed.

(** The lead byte of each length, read by [lead_info]. *)
Lemma lead_info_range (k : nat) (lo hi b : Z) :
  In (k, lo, hi)
     [(0%nat, 0x00, 0x80); (1%nat, 0xC0, 0xE0); (2%nat, 0xE0, 0xF0);
      (3%nat, 0xF0, 0xF8); (4%nat, 0xF8, 0xFC); (5%nat, 0xFC, 0xFE)] ->
  lo <= b < hi ->
  lead_info b = Some (k, b - lo).
Proof.
  intros Hin Hb. unfold lead_info.
  repeat (destruct Hin as [E | Hin];
          [ injection E as <- <- <-;
            repeat match goal with
                   | |- context [?u <? ?v] => destruct (Z.ltb_spec u v); try lia
                   end;
            repeat f_equal; lia |]).
  destruct Hin.
Qed.

Ltac read_lead k lo hi :=
  rewrite (lead_info_range k lo hi) by (cbn; tauto || div_mod_lia);
  cbn [read_continuation]; rewrite ?continuation_digit;
  f_equal; div_mod_lia.

Lemma utf8_read_extended (c0 : Z) (rest : list Z) :
  0 <= c0 <= INT_MAX -> utf8_read (utf8_extended c0 ++ rest) = Some c0.
Proof.
  unfold INT_MAX. intros Hc. unfold utf8_extended, extended_length.
  repeat match goal with
         | |- context [?u <? ?v] => destruct (Z.ltb_spec u v)
         end; cbn [app utf8_read].
  - read_lead 0%nat 0x00 0x80.
  - read_lead 1%nat 0xC0 0xE0.
  - read_lead 2%nat 0xE0 0xF0.
  - read_lead 3%nat 0xF0 0xF8.
  - read_lead 4%nat 0xF8 0xFC.
  - read_lead 5%nat 0xFC 0xFE.
Qed.

Lemma c_str_extended (c0 : Z) (rest : list Z) :
  0 <= c0 <= INT_MAX ->
  c_str (utf8_extended c0 ++ 0 :: rest) =
    if c0 =? 0 then [] else utf8_extended c0.
Proof.
  unfold INT_MAX. intros Hc. unfold utf8_extended, extended_length.
  repeat match goal with
         | |- context [?u <? ?v] => destruct (Z.ltb_spec u v)
         end; cbn [app c_str]; rewrite ?continuation_digit_nonzero;
    cbn [Z.eqb].
  1: destruct (Z.eqb_spec c0 0); reflexivity.
  all: destruct (Z.eqb_spec c0 0); [lia |];
      match goal with
      | |- context [?u + ?v =? 0] =>
          destruct (Z.eqb_spec (u + v) 0); [div_mod_lia | reflexivity]
      end.
Qed.

Lemma lex_ltb_extended (c1 c2 : Z) :
  0 <= c1 -> c1 < c2 -> c2 <= INT_MAX ->
  lex_ltb (utf8_extended c1) (utf8_extended c2) = true.
Proof.
  unfold INT_MAX. intros H1 H12 H2. unfold utf8_extended, extended_length.
  repeat match goal with
         | |- context [?u <? ?v] => destruct (Z.ltb_spec u v)
         end; try lia; cbn [lex_ltb];
    rewrite ?orb_true_iff, ?andb_true_iff, ?Z.ltb_lt, ?Z.eqb_eq;
    rewrite ?orb_false_r; rewrite ?Z.ltb_lt.
  all: try div_mod_lia.
Qed.

End ReadBack.

(** X2. Round trip: for every [c0] from [0] to [INT_MAX], a decoder that
    takes the length from the lead byte and checks each continuation byte
    reads [c0] back from the array [utf8] returns, whatever follows the
    sequence. *)
Theorem utf8_read_round_trip (seq0 : char_array) (c0 : Z) :
  is_array seq0 -> 0 <= c0 <= INT_MAX ->
  exists out : char_array, utf8 seq0 c0 = Some out /\ utf8_read out = Some c0.
Proof.
  intros Hs Hc. destruct (utf8_extended_run seq0 c0 Hs Hc) as [E _].
  eexists. split; [exact E |]. apply utf8_read_extended. exact Hc.
Qed.

Lemma utf8_read_round_trip_witness :
  exists out : char_array,
    utf8 [1; 2; 3; 4; 5; 6; 7; 8] 0x7fffffff = Some out /\
    utf8_read out = Some 0x7fffffff.
Proof.
  apply (utf8_read_round_trip [1; 2; 3; 4; 5; 6; 7; 8] 0x7fffffff).
  - reflexivity.
  - unfold INT_MAX. lia.
Defined.

(** X3. As a C string, the result of [utf8] on [c0] from [1] to [INT_MAX]
    is exactly the encoded sequence: none of its [n] bytes is NUL, so its
    length is [n].  For [c0 = 0] the first byte is the NUL itself and the
    string is empty. *)
Theorem utf8_c_string (seq0 : char_array) (c0 : Z) :
  is_array seq0 -> 0 <= c0 <= INT_MAX ->
  exists out : char_array,
    utf8 seq0 c0 = Some out /\
    c_str out = (if c0 =? 0 then [] else utf8_extended c0) /\
    Z.of_nat (length (c_str out)) = (if c0 =? 0 then 0 else utf8_length c0).
Proof.
  intros Hs Hc. destruct (utf8_extended_run seq0 c0 Hs Hc) as [E L].
  eexists. split; [exact E |].
  rewrite c_str_extended by exact Hc.
  split; [reflexivity |]. destruct (c0 =? 0); [reflexivity | symmetry; exact L].
Qed.

Lemma utf8_c_string_witness :
  exists out : char_array,
    utf8 [1; 2; 3; 4; 5; 6; 7; 8] 0 = Some out /\
    c_str out = [] /\ Z.of_nat (length (c_str out)) = 0.
Proof.
  apply (utf8_c_string [1; 2; 3; 4; 5; 6; 7; 8] 0).
  - reflexivity.
  - unfold INT_MAX. lia.
Defined.

(** X4. On [0 .. INT_MAX] the encoder is injective, already on the C
    strings: calls on two different values return arrays that hold
    different strings, whatever the arrays held before. *)
Theorem utf8_injective (s1 s2 : char_array) (c1 c2 : Z) :
  is_array s1 -> is_array s2 ->
  0 <= c1 <= INT_MAX -> 0 <= c2 <= INT_MAX -> c1 <> c2 ->
  exists out1 out2 : char_array,
    utf8 s1 c1 = Some out1 /\ utf8 s2 c2 = Some out2 /\
    c_str out1 <> c_str out2.
Proof.
  intros Hs1 Hs2 Hc1 Hc2 Hne.
  destruct (utf8_extended_run s1 c1 Hs1 Hc1) as [R1 _].
  destruct (utf8_extended_run s2 c2 Hs2 Hc2) as [R2 _].
  do 2 eexists. split; [exact R1 |]. split; [exact R2 |].
  rewrite !c_str_extended by assumption. intros Hstr. apply Hne.
  pose proof (utf8_extended_length c1) as L1.
  pose proof (utf8_extended_length c2) as L2.
  assert (B1 : (1 <= extended_length c1)%nat).
  { unfold extended_length. repeat (destruct (_ <? _); [lia |]). lia. }
  assert (B2 : (1 <= extended_length c2)%nat).
  { unfold extended_length. repeat (destruct (_ <? _); [lia |]). lia. }
  destruct (Z.eqb_spec c1 0) as [-> | Z1], (Z.eqb_spec c2 0) as [-> | Z2].
  - reflexivity.
  - rewrite <- Hstr in L2. cbn in L2. lia.
  - rewrite Hstr in L1. cbn in L1. lia.
  - pose proof (utf8_read_extended c1 [] Hc1) as D1.
    pose proof (utf8_read_extended c2 [] Hc2) as D2.
    rewrite Hstr, D2 in D1. injection D1 as ->. reflexivity.
Qed.

Lemma utf8_injective_witness :
  exists out1 out2 : char_array,
    utf8 [1; 2; 3; 4; 5; 6; 7; 8] 0xE8 = Some out1 /\
    utf8 [0; 0; 0; 0; 0; 0; 0; 0] 0xE9 = Some out2 /\
    c_str out1 <> c_str out2.
Proof.
  apply (utf8_injective [1; 2; 3; 4; 5; 6; 7; 8] [0; 0; 0; 0; 0; 0; 0; 0]
           0xE8 0xE9); try reflexivity; unfold INT_MAX; lia.
Defined.

(** X5. On [0 .. INT_MAX] the encoder keeps the order: if [c1 < c2], the
    string for [c1] comes before the string for [c2] in the byte-wise
    order of [strcmp]. *)
Theorem utf8_order (s1 s2 : char_array) (c1 c2 : Z) :
  is_array s1 -> is_array s2 ->
  0 <= c1 -> c1 < c2 -> c2 <= INT_MAX ->
  exists out1 out2 : char_array,
    utf8 s1 c1 = Some out1 /\ utf8 s2 c2 = Some out2 /\
    lex_ltb (c_str out1) (c_str out2) = true.
Proof.
  intros Hs1 Hs2 H1 H12 H2.
  assert (Hc1 : 0 <= c1 <= INT_MAX) by lia.
  assert (Hc2 : 0 <= c2 <= INT_MAX) by lia.
  destruct (utf8_extended_run s1 c1 Hs1 Hc1) as [R1 _].
  destruct (utf8_extended_run s2 c2 Hs2 Hc2) as [R2 _].
  do 2 eexists. split; [exact R1 |]. split; [exact R2 |].
  rewrite !c_str_extended by assumption.
  destruct (Z.eqb_spec c2 0) as [-> | Z2]; [lia |].
  destruct (Z.eqb_spec c1 0) as [-> | Z1].
  - pose proof (utf8_extended_length c2) as L2.
    assert (B2 : (1 <= extended_length c2)%nat).
    { unfold extended_length. repeat (destruct (_ <? _); [lia |]). lia. }
    destruct (utf8_extended c2); [cbn in L2; lia | reflexivity].
  - apply lex_ltb_extended; assumption.
Qed.

Lemma utf8_order_witness :
  exists out1 out2 : char_array,
    utf8 [1; 2; 3; 4; 5; 6; 7; 8] 0x7F = Some out1 /\
    utf8 [1; 2; 3; 4; 5; 6; 7; 8] 0x80 = Some out2 /\
    lex_ltb (c_str out1) (c_str out2) = true.
Proof.
  apply (utf8_order [1; 2; 3; 4; 5; 6; 7; 8] [1; 2; 3; 4; 5; 6; 7; 8]
           0x7F 0x80); try reflexivity; unfold INT_MAX; lia.
Defined.

(** ** Negative arguments *)

(** X6. For a negative [c0], [utf8] takes the one-byte branch: it stores
    the low eight bits of [c0] and a NUL and nothing else.  Values that
    agree in their low eight bits are not told apart, and a negative
    value whose low byte is below [0x80] gives the array of that ASCII
    character. *)
Theorem utf8_negative (seq0 : char_array) (c0 : Z) :
  is_array seq0 -> INT_MIN <= c0 < 0 ->
  utf8 seq0 c0 = Some (c0 mod 256 :: 0 :: drop 2 seq0) /\
  (forall c1 : Z, INT_MIN <= c1 < 0 -> c1 mod 256 = c0 mod 256 ->
     utf8 seq0 c1 = utf8 seq0 c0) /\
  (c0 mod 256 < 0x80 -> utf8 seq0 c0 = utf8 seq0 (c0 mod 256)).
Proof.
  intros Hs Hc. as_elements seq0 Hs.
  assert (N : forall v, v < 0x80 -> utf8_length v = 1).
  { intros v Hv. unfold utf8_length. destruct (Z.ltb_spec v 0x80); [reflexivity | lia]. }
  split; [| split].
  - rewrite utf8_run_1 by (apply N; lia). reflexivity.
  - intros c1 Hc1 E. rewrite !utf8_run_1 by (apply N; lia).
    unfold to_char. rewrite E. reflexivity.
  - intros Hlow. pose proof (Z.mod_pos_bound c0 256 ltac:(lia)) as B.
    rewrite !utf8_run_1 by (apply N; lia).
    unfold to_char. rewrite Z.mod_mod by lia. reflexivity.
Qed.

Lemma utf8_negative_witness :
  utf8 [1; 2; 3; 4; 5; 6; 7; 8] (-191) = Some [65; 0; 3; 4; 5; 6; 7; 8] /\
  utf8 [1; 2; 3; 4; 5; 6; 7; 8] (-191) = utf8 [1; 2; 3; 4; 5; 6; 7; 8] 65.
Proof.
  assert (Hs : is_array [1; 2; 3; 4; 5; 6; 7; 8]) by reflexivity.
  assert (Hc : INT_MIN <= -191 < 0) by (unfold INT_MIN; lia).
  destruct (utf8_negative [1; 2; 3; 4; 5; 6; 7; 8] (-191) Hs Hc) as (E & _ & A).
  split; [exact E | apply A; reflexivity].
Defined.

(** ** The room [utf8] needs *)

Section Room.

Lemma emit_room (i mark : Z) (st : locals) :
  0 <= i < Z.of_nat (length (seq st)) ->
  exists st', emit i mark st = Some st' /\ length (seq st') = length (seq st).
Proof.
  intros Hi. unfold emit. rewrite store_in_range by exact Hi.
  cbn [mbind option_bind]. eexists. split; [reflexivity |].
  cbn [seq]. apply length_insert.
Qed.

Lemma case_1_room (st : locals) :
  0 < Z.of_nat (length (seq st)) -> is_Some (case_1 st).
Proof.
  intros H. unfold case_1. rewrite store_in_range by lia.
  cbn [mbind option_bind]. eexists. reflexivity.
Qed.

Ltac next_case H :=
  match goal with
  | |- is_Some (emit ?i ?m ?st ≫= _) =>
      destruct (emit_room i m st ltac:(lia)) as (st' & -> & L);
      cbn [mbind option_bind]
  end.

Lemma case_2_room (st : locals) :
  1 < Z.of_nat (length (seq st)) -> is_Some (case_2 st).
Proof. intros H. unfold case_2. next_case H. apply case_1_room. lia. Qed.

Lemma case_3_room (st : locals) :
  2 < Z.of_nat (length (seq st)) -> is_Some (case_3 st).
Proof. intros H. unfold case_3. next_case H. apply case_2_room. lia. Qed.

Lemma case_4_room (st : locals) :
  3 < Z.of_nat (length (seq st)) -> is_Some (case_4 st).
Proof. intros H. unfold case_4. next_case H. apply case_3_room. lia. Qed.

Lemma case_5_room (st : locals) :
  4 < Z.of_nat (length (seq st)) -> is_Some (case_5 st).
Proof. intros H. unfold case_5. next_case H. apply case_4_room. lia. Qed.

Lemma case_6_room (st : locals) :
  5 < Z.of_nat (length (seq st)) -> is_Some (case_6 st).
Proof. intros H. unfold case_6. next_case H. apply case_5_room. lia. Qed.

Lemma store_frame (i v : Z) (s s' : char_array) (j : nat) :
  store i v s = Some s' -> Z.of_nat j <> i -> s' !! j = s !! j.
Proof.
  unfold store. intros H Hj. destruct (decide _) as [D | D]; [| discriminate H].
  injection H as <-. apply list_lookup_insert_ne. lia.
Qed.

Lemma emit_frame (i mark : Z) (st st' : locals) (j : nat) :
  emit i mark st = Some st' -> Z.of_nat j <> i -> seq st' !! j = seq st !! j.
Proof.
  unfold emit. intros H Hj.
  destruct (store i (low_six (c st)) (seq st)) as [s' |] eqn:E;
    cbn [mbind option_bind] in H; [| discriminate H].
  injection H as <-. cbn [seq]. exact (store_frame _ _ _ _ _ E Hj).
Qed.

Lemma case_1_frame (st st' : locals) (j : nat) :
  case_1 st = Some st' -> (1 <= j)%nat -> seq st' !! j = seq st !! j.
Proof.
  unfold case_1. intros H Hj.
  destruct (store 0 (c st) (seq st)) as [s' |] eqn:E;
    cbn [mbind option_bind] in H; [| discriminate H].
  injection H as <-. cbn [seq]. apply (store_frame _ _ _ _ _ E). lia.
Qed.

Ltac frame_step next :=
  match goal with
  | H : emit ?i ?m ?st ≫= _ = Some _ |- _ =>
      let E := fresh "E" in
      destruct (emit i m st) as [mid |] eqn:E;
      cbn [mbind option_bind] in H; [| discriminate H];
      rewrite (next _ _ _ H) by lia;
      apply (emit_frame _ _ _ _ _ E); lia
  end.

Lemma case_2_frame (st st' : locals) (j : nat) :
  case_2 st = Some st' -> (2 <= j)%nat -> seq st' !! j = seq st !! j.
Proof. unfold case_2. intros H Hj. frame_step case_1_frame. Qed.

Lemma case_3_frame (st st' : locals) (j : nat) :
  case_3 st = Some st' -> (3 <= j)%nat -> seq st' !! j = seq st !! j.
Proof. unfold case_3. intros H Hj. frame_step case_2_frame. Qed.

Lemma case_4_frame (st st' : locals) (j : nat) :
  case_4 st = Some st' -> (4 <= j)%nat -> seq st' !! j = seq st !! j.
Proof. unfold case_4. intros H Hj. frame_step case_3_frame. Qed.

Lemma case_5_frame (st st' : locals) (j : nat) :
  case_5 st = Some st' -> (5 <= j)%nat -> seq st' !! j = seq st !! j.
Proof. unfold case_5. intros H Hj. frame_step case_4_frame. Qed.

Lemma case_6_frame (st st' : locals) (j : nat) :
  case_6 st = Some st' -> (6 <= j)%nat -> seq st' !! j = seq st !! j.
Proof. unfold case_6. intros H Hj. frame_step case_5_frame. Qed.

End Room.

(** X7. On a buffer of any length, [utf8] stays within bounds exactly when
    the buffer is longer than the length [n] it assigns: the write of the
    NUL at index [n] is the farthest one.  Seven bytes are enough for
    every [int]; no byte past index [n] is written, so the eighth byte of
    the array never is. *)
Theorem utf8_room (seq0 : char_array) (c0 : Z) :
  is_int c0 ->
  (is_Some (utf8 seq0 c0) <-> utf8_length c0 < Z.of_nat (length seq0)) /\
  (7 <= Z.of_nat (length seq0) -> is_Some (utf8 seq0 c0)) /\
  (forall (out : char_array) (j : nat),
     utf8 seq0 c0 = Some out -> utf8_length c0 < Z.of_nat j ->
     out !! j = seq0 !! j) /\
  (forall out : char_array,
     utf8 seq0 c0 = Some out -> out !! 7%nat = seq0 !! 7%nat).
Proof.
  intros Hc.
  assert (Hiff : is_Some (utf8 seq0 c0) <-> utf8_length c0 < Z.of_nat (length seq0)).
  { unfold utf8. split.
    - intros [out E].
      destruct (decide (0 <= utf8_length c0 < Z.of_nat (length seq0))) as [D | D];
        [lia |].
      rewrite store_out_of_range in E by exact D. discriminate E.
    - intros Hn.
      assert (Hn0 : 0 <= utf8_length c0 < Z.of_nat (length seq0)).
      { destruct (utf8_length_cases c0 Hc) as [E | [E | [E | [E | [E | E]]]]]; lia. }
      rewrite store_in_range by exact Hn0. cbn [mbind option_bind].
      set (st := Locals _ c0).
      assert (L : length (seq st) = length seq0) by apply length_insert.
      assert (S : is_Some (switch (utf8_length c0) st)).
      { destruct (utf8_length_cases c0 Hc) as [E | [E | [E | [E | [E | E]]]]];
          rewrite E in *; cbn [switch];
          [apply case_1_room | apply case_2_room | apply case_3_room
          | apply case_4_room | apply case_5_room | apply case_6_room]; lia. }
      destruct S as [st' ->]. cbn [mbind option_bind]. eexists. reflexivity. }
  assert (Hframe : forall (out : char_array) (j : nat),
             utf8 seq0 c0 = Some out -> utf8_length c0 < Z.of_nat j ->
             out !! j = seq0 !! j).
  { intros out j E Hj. unfold utf8 in E.
    destruct (store (utf8_length c0) 0 seq0) as [s1 |] eqn:E1;
      cbn [mbind option_bind] in E; [| discriminate E].
    destruct (switch (utf8_length c0) (Locals s1 c0)) as [st' |] eqn:E2;
      cbn [mbind option_bind] in E; [| discriminate E].
    injection E as <-.
    rewrite <- (store_frame _ _ _ _ j E1) by lia.
    change s1 with (seq (Locals s1 c0)).
    destruct (utf8_length_cases c0 Hc) as [N | [N | [N | [N | [N | N]]]]];
      rewrite N in *; cbn [switch] in E2;
      [ apply (case_1_frame _ _ _ E2) | apply (case_2_frame _ _ _ E2)
      | apply (case_3_frame _ _ _ E2) | apply (case_4_frame _ _ _ E2)
      | apply (case_5_frame _ _ _ E2) | apply (case_6_frame _ _ _ E2) ]; lia. }
  split; [exact Hiff |]. split; [| split; [exact Hframe |]].
  - intros H7. apply Hiff.
    destruct (utf8_length_cases c0 Hc) as [E | [E | [E | [E | [E | E]]]]]; lia.
  - intros out E. apply Hframe; [exact E |].
    destruct (utf8_length_cases c0 Hc) as [N | [N | [N | [N | [N | N]]]]]; lia.
Qed.

Lemma utf8_room_witness :
  (is_Some (utf8 [1; 2; 3; 4; 5; 6] INT_MAX) <-> 6 < 6) /\
  is_Some (utf8 [1; 2; 3; 4; 5; 6; 7] INT_MAX).
Proof.
  assert (Hc : is_int INT_MAX) by (unfold is_int, INT_MIN, INT_MAX; lia).
  split.
  - exact (proj1 (utf8_room [1; 2; 3; 4; 5; 6] INT_MAX Hc)).
  - apply (proj1 (proj2 (utf8_room [1; 2; 3; 4; 5; 6; 7] INT_MAX Hc))).
    cbn. lia.
Defined.

(** ** Colour channels from 8-bit integers *)

Section Channels.

Import F32Ext.

Lemma range_In (lo v : Z) (n : nat) :
  lo <= v < lo + Z.of_nat n -> In v (range lo n).
Proof.
  intros H. unfold range. apply in_map_iff.
  exists (Z.to_nat (v - lo)). split; [lia |]. apply in_seq. lia.
Qed.

Lemma channel_8bit (v : Z) :
  0 <= v <= 255 ->
  F32.valid (channel v) = true /\ in_unit_interval (channel v) = true /\
  F32.is_finite (channel v) = true.
Proof.
  intros H.
  assert (A : forallb (fun v => F32.valid (channel v) && in_unit_interval (channel v)
                                && F32.is_finite (channel v)) (range 0 256) = true)
    by (vm_compute; reflexivity).
  rewrite forallb_forall in A. specialize (A v (range_In 0 v 256 ltac:(lia))).
  rewrite !andb_true_iff in A. tauto.
Qed.

Lemma channel_increasing (v v' : Z) :
  0 <= v -> v < v' -> v' <= 255 -> F32.ltb (channel v) (channel v') = true.
Proof.
  intros H0 H1 H2.
  assert (A : forallb (fun u => forallb (fun u' =>
                 if u <? u' then F32.ltb (channel u) (channel u') else true)
                 (range 0 256)) (range 0 256) = true)
    by (vm_compute; reflexivity).
  rewrite forallb_forall in A. specialize (A v (range_In 0 v 256 ltac:(lia))).
  rewrite forallb_forall in A. specialize (A v' (range_In 0 v' 256 ltac:(lia))).
  destruct (Z.ltb_spec v v'); [exact A | lia].
Qed.

End Channels.

(** X8. Built from integers between 0 and 255, a colour has every channel
    a value of the format between [0] and [1]; all 0 gives the channels
    [0] and all 255 gives exactly [1]. *)
Theorem from_ints_8bit (r g b a : Z) :
  0 <= r <= 255 -> 0 <= g <= 255 -> 0 <= b <= 255 -> 0 <= a <= 255 ->
  forallb (fun x => F32.valid x && F32Ext.in_unit_interval x)
          (F32Ext.channels (Color.from_ints r g b a)) = true /\
  Color.from_ints 255 255 255 255 = Color.white /\
  Color.from_int_int 255 255 = Color.white /\
  Color.from_int_int 0 255 = Color.black.
Proof.
  intros Hr Hg Hb Ha. split; [| vm_compute; repeat split].
  cbn [F32Ext.channels Color.from_ints Color.from_Vector4i Color.from_Vector4f
       Eigen.div4 Eigen.cast4 Eigen.f0 Eigen.f1 Eigen.f2 Eigen.f3
       Eigen.i0 Eigen.i1 Eigen.i2 Eigen.i3 forallb].
  fold (F32Ext.channel r) (F32Ext.channel g) (F32Ext.channel b) (F32Ext.channel a).
  destruct (channel_8bit r Hr) as (-> & -> & _).
  destruct (channel_8bit g Hg) as (-> & -> & _).
  destruct (channel_8bit b Hb) as (-> & -> & _).
  destruct (channel_8bit a Ha) as (-> & -> & _).
  reflexivity.
Qed.

Lemma from_ints_8bit_witness :
  forallb (fun x => F32.valid x && F32Ext.in_unit_interval x)
          (F32Ext.channels (Color.from_ints 255 128 1 0)) = true.
Proof.
  apply (from_ints_8bit 255 128 1 0); lia.
Defined.

(** X9. On integers between 0 and 255 the channel value is strictly
    increasing: a larger integer gives a larger red, green, blue or alpha,
    so no two of the 256 levels fall together. *)
Theorem from_ints_increasing (v v' : Z) :
  0 <= v -> v < v' -> v' <= 255 ->
  forall p q s : Z,
    F32.ltb (Color.r (Color.from_ints v p q s)) (Color.r (Color.from_ints v' p q s)) = true /\
    F32.ltb (Color.g (Color.from_ints p v q s)) (Color.g (Color.from_ints p v' q s)) = true /\
    F32.ltb (Color.b (Color.from_ints p q v s)) (Color.b (Color.from_ints p q v' s)) = true /\
    F32.ltb (Eigen.w (Color.from_ints p q s v)) (Eigen.w (Color.from_ints p q s v')) = true.
Proof.
  intros H0 H1 H2 p q s.
  pose proof (channel_increasing v v' H0 H1 H2) as A.
  repeat split; exact A.
Qed.

Lemma from_ints_increasing_witness :
  F32.ltb (Color.r (Color.from_ints 254 0 0 0)) (Color.r (Color.from_ints 255 0 0 0)) = true.
Proof.
  refine (proj1 (from_ints_increasing 254 255 _ _ _ 0 0 0)); lia.
Defined.

(** ** More on the contrasting colour *)

Section ContrastEdges.

Import Eigen Color F32Ext.

Lemma add_nan_l (u : F32.float) : F32.add SpecFloat.S754_nan u = SpecFloat.S754_nan.
Proof. reflexivity. Qed.

Lemma add_nan_r (u : F32.float) : F32.add u SpecFloat.S754_nan = SpecFloat.S754_nan.
Proof. destruct u; reflexivity. Qed.

Lemma mul_nan_l (u : F32.float) : F32.mul SpecFloat.S754_nan u = SpecFloat.S754_nan.
Proof. reflexivity. Qed.

Lemma is_nan_eq (u : F32.float) : is_nan u = true -> u = SpecFloat.S754_nan.
Proof. destruct u; (reflexivity || discriminate). Qed.

Lemma mul_infinite_zero (u : F32.float) :
  is_infinite u = true -> F32.mul u F32.lit_0 = SpecFloat.S754_nan.
Proof. destruct u; (reflexivity || discriminate). Qed.

(** A NaN among the four products makes the luminance a NaN. *)
Lemma luminance_nan (o : reduction) (self : Color.t) :
  existsb is_nan (channels (cwiseProduct self
     (from_floats F32.lit_0_299 F32.lit_0_587 F32.lit_0_144 F32.lit_0))) = true ->
  luminance o self = SpecFloat.S754_nan.
Proof.
  unfold luminance. generalize (cwiseProduct self
     (from_floats F32.lit_0_299 F32.lit_0_587 F32.lit_0_144 F32.lit_0)).
  intros [p0 p1 p2 p3]. cbn [channels existsb f0 f1 f2 f3].
  rewrite !orb_true_iff. intros [H | [H | [H | [H | H]]]]; try discriminate H;
    apply is_nan_eq in H; subst; destruct o; cbn [sum f0 f1 f2 f3];
    rewrite ?add_nan_l, ?add_nan_r; reflexivity.
Qed.

(** 8-bit greys, at full alpha. *)
Lemma grey_threshold_opaque (o : reduction) (i : Z) :
  0 <= i <= 255 ->
  contrastingColor o (from_int_int i 255) = if i <=? 123 then white else black.
Proof.
  intros H.
  assert (A : forallb (fun i =>
      let res := contrastingColor o (from_int_int i 255) in
      F32.ltb F32.lit_0 (f0 res) && (i <=? 123)
      || negb (F32.ltb F32.lit_0 (f0 res)) && negb (i <=? 123)) (range 0 256) = true)
    by (destruct o; vm_compute; reflexivity).
  rewrite forallb_forall in A. specialize (A i (range_In 0 i 256 ltac:(lia))).
  cbv zeta in A.
  destruct (contrastingColor_cases o (from_int_int i 255)) as [[_ E] | [_ E]];
    rewrite E in *; destruct (i <=? 123); try reflexivity; discriminate A.
Qed.

End ContrastEdges.

(** X10. A colour with a NaN in any channel, or with an infinite alpha,
    has black as its contrasting colour: the luminance is then a NaN, and
    a NaN is not below [0.5f]. *)
Theorem contrastingColor_not_a_number (o : Eigen.reduction) (r g b a : F32.float) :
  F32Ext.is_nan r || F32Ext.is_nan g || F32Ext.is_nan b || F32Ext.is_nan a
    || F32Ext.is_infinite a = true ->
  Color.contrastingColor o (Color.from_floats r g b a) = Color.black.
Proof.
  intros H.
  assert (L : Color.luminance o (Color.from_floats r g b a) = SpecFloat.S754_nan).
  { apply luminance_nan.
    cbn [F32Ext.channels Eigen.cwiseProduct Color.from_floats Color.from_Vector4f
         Eigen.f0 Eigen.f1 Eigen.f2 Eigen.f3 existsb].
    rewrite !orb_true_iff in *.
    destruct H as [[[[H | H] | H] | H] | H].
    - apply is_nan_eq in H. subst. tauto.
    - apply is_nan_eq in H. subst. right. left. destruct r; reflexivity.
    - apply is_nan_eq in H. subst. right. right. left. destruct r; reflexivity.
    - apply is_nan_eq in H. subst. tauto.
    - rewrite (mul_infinite_zero a H). tauto. }
  unfold Color.contrastingColor. rewrite L. reflexivity.
Qed.

Lemma contrastingColor_not_a_number_witness :
  Color.contrastingColor Eigen.Halves
    (Color.from_floats F32.lit_0 F32.lit_0 F32.lit_0 (SpecFloat.S754_infinity true))
  = Color.black.
Proof.
  apply contrastingColor_not_a_number. reflexivity.
Defined.

(** X11. A finite alpha has no part in the contrasting colour: two colours
    that differ only in a finite alpha have the same one, in each order of
    summation. *)
Theorem contrastingColor_alpha_irrelevant
    (o : Eigen.reduction) (r g b a a' : F32.float) :
  F32.is_finite a = true -> F32.is_finite a' = true ->
  Color.contrastingColor o (Color.from_floats r g b a) =
  Color.contrastingColor o (Color.from_floats r g b a').
Proof. intros Ha Ha'. exact (contrastingColor_finite_alpha o r g b a a' Ha Ha'). Qed.

Lemma contrastingColor_alpha_irrelevant_witness :
  Color.contrastingColor Eigen.Lanes
    (Color.from_floats F32.lit_1 F32.lit_0_5 F32.lit_0 F32.lit_0) =
  Color.contrastingColor Eigen.Lanes
    (Color.from_floats F32.lit_1 F32.lit_0_5 F32.lit_0 F32.lit_255).
Proof.
  apply contrastingColor_alpha_irrelevant; reflexivity.
Defined.

(** X12. [contrastingColor] never returns the colour it is given: it
    answers white or black, white for black and black for white. *)
Theorem contrastingColor_no_fixed_point (o : Eigen.reduction) (self : Color.t) :
  Color.contrastingColor o self <> self.
Proof.
  intros E.
  destruct (contrastingColor_cases o self) as [[_ W] | [_ B]].
  - rewrite W in E. subst self. rewrite contrastingColor_white in W. discriminate W.
  - rewrite B in E. subst self. rewrite contrastingColor_black in B. discriminate B.
Qed.

(** X13. For a grey built from 8-bit integers, [Color (int i, int a)],
    the contrasting colour is white for the levels 0 to 123 and black for
    124 to 255, whatever the alpha and the order of summation; so a darker
    grey never gets the darker answer. *)
Theorem contrastingColor_grey (o : Eigen.reduction) (i a : Z) :
  0 <= i <= 255 -> 0 <= a <= 255 ->
  Color.contrastingColor o (Color.from_int_int i a) =
    (if i <=? 123 then Color.white else Color.black) /\
  (forall j : Z, i <= j <= 255 ->
     Color.contrastingColor o (Color.from_int_int j a) = Color.white ->
     Color.contrastingColor o (Color.from_int_int i a) = Color.white).
Proof.
  intros Hi Ha.
  assert (G : forall k, 0 <= k <= 255 ->
            Color.contrastingColor o (Color.from_int_int k a) =
            if k <=? 123 then Color.white else Color.black).
  { intros k Hk. rewrite <- (grey_threshold_opaque o k Hk).
    apply contrastingColor_finite_alpha.
    - exact (proj2 (proj2 (channel_8bit a Ha))).
    - reflexivity. }
  split; [exact (G i Hi) |].
  intros j Hj. rewrite (G i Hi), (G j ltac:(lia)).
  destruct (Z.leb_spec j 123), (Z.leb_spec i 123);
    (reflexivity || discriminate || lia).
Qed.

Lemma contrastingColor_grey_witness :
  Color.contrastingColor Eigen.Linear (Color.from_int_int 124 7) = Color.black.
Proof.
  refine (proj1 (contrastingColor_grey Eigen.Linear 124 7 _ _)); lia.
Defined.

(** ** Key codes *)

Section KeyCodes.

Import Keys.
Import String.StringSyntax Ascii.AsciiSyntax.
Local Open Scope string_scope.

Lemma key_codes_pairs_checked :
  forallb (fun e1 : String.string * Z =>
    (0 <=? snd e1) && (snd e1 <=? 323)
    && Bool.eqb (snd e1 =? 323) (String.eqb (fst e1) "KEY_LAST")
    && forallb (fun e2 : String.string * Z =>
         (if snd e1 =? snd e2
          then String.eqb (fst e1) (fst e2) || (snd e1 =? 0) else true)
         && (if String.eqb (fst e1) (fst e2) then snd e1 =? snd e2 else true))
       key_codes) key_codes = true.
Proof. vm_compute. reflexivity. Qed.

Lemma key_codes_characters_checked :
  forallb (fun e : String.string * Z =>
    match fst e with
    | String.String "K" (String.String "E" (String.String "Y" (String.String "_"
        (String.String ch String.EmptyString)))) => snd e =? ascii_code ch
    | _ => true
    end) key_codes = true.
Proof. vm_compute. reflexivity. Qed.

Lemma value_of_In (name : String.string) (v : Z) (table : list (String.string * Z)) :
  value_of name table = Some v -> In (name, v) table.
Proof.
  induction table as [| [n u] rest IH]; [discriminate |].
  cbn [value_of]. destruct (String.eqb_spec n name) as [-> | Hne].
  - intros E. injection E as ->. left. reflexivity.
  - intros E. right. exact (IH E).
Qed.

(** X14. In the key-code [enum], [KEY_LAST] gets 323, one more than the
    largest code: every enumerator has a value from 0 to 323 and only
    [KEY_LAST] has 323.  A name has one value, and two names share a
    value only at 0 ([KEY_UNKNOWN] and [KEY_FIRST]). *)
Theorem key_codes_distinct (n1 n2 : String.string) (v1 v2 : Z) :
  In (n1, v1) key_codes -> In (n2, v2) key_codes ->
  0 <= v1 <= 323 /\
  (v1 = 323 <-> n1 = "KEY_LAST") /\
  (v1 = v2 -> n1 = n2 \/ v1 = 0) /\
  (n1 = n2 -> v1 = v2) /\
  value_of "KEY_LAST" key_codes = Some 323.
Proof.
  intros H1 H2. pose proof key_codes_pairs_checked as A.
  rewrite forallb_forall in A. specialize (A _ H1). cbn [fst snd] in A.
  rewrite !andb_true_iff in A. destruct A as [[[A0 A1] A2] A3].
  rewrite forallb_forall in A3. specialize (A3 _ H2). cbn [fst snd] in A3.
  rewrite andb_true_iff in A3. destruct A3 as [A3 A4].
  apply Z.leb_le in A0. apply Z.leb_le in A1.
  split; [lia |]. split; [| split; [| split]].
  - apply Bool.eqb_prop in A2.
    rewrite <- String.eqb_eq, <- A2. apply iff_sym, Z.eqb_eq.
  - intros E. apply Z.eqb_eq in E. rewrite E in A3.
    apply orb_true_iff in A3. destruct A3 as [A3 | A3].
    + left. apply String.eqb_eq. exact A3.
    + right. apply Z.eqb_eq. exact A3.
  - intros E. apply String.eqb_eq in E. rewrite E in A4.
    apply Z.eqb_eq. exact A4.
  - reflexivity.
Qed.

Lemma key_codes_distinct_witness :
  0 <= 0 <= 323 /\
  (0 = 323 <-> "KEY_UNKNOWN" = "KEY_LAST") /\
  (0 = 0 -> "KEY_UNKNOWN" = "KEY_FIRST" \/ 0 = 0) /\
  ("KEY_UNKNOWN" = "KEY_FIRST" -> 0 = 0) /\
  value_of "KEY_LAST" key_codes = Some 323.
Proof.
  apply (key_codes_distinct "KEY_UNKNOWN" "KEY_FIRST" 0 0).
  - left. reflexivity.
  - right. left. reflexivity.
Defined.

(** X15. Every key named by a lower-case letter or a digit, [KEY_a] to
    [KEY_z] and [KEY_0] to [KEY_9], exists and has the ASCII code of that
    character as its only value. *)
Theorem key_codes_characters (ch : Ascii.ascii) :
  is_lower_or_digit ch = true ->
  value_of (key_name ch) key_codes = Some (ascii_code ch) /\
  (forall v : Z, In (key_name ch, v) key_codes -> v = ascii_code ch).
Proof.
  intros H. split.
  - destruct ch as [[] [] [] [] [] [] [] []];
      (discriminate H || (vm_compute; reflexivity)).
  - intros v Hin. pose proof key_codes_characters_checked as A.
    rewrite forallb_forall in A. specialize (A _ Hin).
    cbn [fst snd key_name String.append] in A. apply Z.eqb_eq. exact A.
Qed.

Lemma key_codes_characters_witness :
  value_of "KEY_q" key_codes = Some 113 /\
  (forall v : Z, In ("KEY_q", v) key_codes -> v = 113).
Proof.
  apply (key_codes_characters (Ascii.ascii_of_nat 113)). reflexivity.
Defined.

(** X16. [SYSTEM_COMMAND_MOD] is a modifier code, [CTRL_DOWN], except on
    Apple systems, where it is the key code [KEY_LSUPER] = 311.  That
    value is the word of no set of modifiers, and its bits overlap
    [ALT_DOWN] and [CTRL_DOWN] only: an AND test of a modifier word
    against it answers for Alt or Ctrl, never for Meta or Shift alone. *)
Theorem system_command_mod :
  SYSTEM_COMMAND_MOD false = code Ctrl /\
  value_of "KEY_LSUPER" key_codes = Some (SYSTEM_COMMAND_MOD true) /\
  (forall s : list modifier,
     mask_test (mask_of s) (SYSTEM_COMMAND_MOD false) = true <-> Ctrl ∈ s) /\
  (forall s : list modifier, mask_of s <> SYSTEM_COMMAND_MOD true) /\
  (forall s : list modifier,
     mask_test (mask_of s) (SYSTEM_COMMAND_MOD true) = true <-> Alt ∈ s \/ Ctrl ∈ s).
Proof.
  split; [reflexivity |]. split; [reflexivity |].
  split; [| split]; intros s; rewrite mask_of_canonical;
    pose proof (bool_decide_eq_true (Alt ∈ s)) as HA;
    pose proof (bool_decide_eq_true (Ctrl ∈ s)) as HC;
    destruct (bool_decide (Shift ∈ s)), (bool_decide (Alt ∈ s)),
      (bool_decide (Ctrl ∈ s)), (bool_decide (Meta ∈ s));
    try (vm_compute; discriminate);
    match goal with
    | |- ?t = true <-> _ => let v := eval vm_compute in t in change t with v
    end;
    intuition congruence.
Qed.

End KeyCodes.
